(** * FilterKD: knowledge-distillation criteria and the adaptive kNN-MT model

  A shallow embedding of
    - docs/label_smoothed_cross_entropy-step2.py   (module [Adapter]),
    - docs/kd/criterions/record_topk_predictions.py (module [RecordTopk]),
    - knnbox/models/adaptive_knn_mt.py              (module [AdaptiveKnnMt]),
  and of the combiner contract they call ([Combiner]).

  Tensor entries and Python floats are idealised as real numbers: sums,
  products and comparisons are the exact ones.  What Python itself refuses
  (an index out of range, a division of a float by the integer 0, [math.log]
  outside its domain, an undefined name) is kept, as a raised exception.
  The real numbers hold no infinity and no not-a-number: [torch.log] is
  modelled where its result is finite, on positive entries, and every
  theorem that states the value of a logarithm takes positive
  probabilities. *)

From Stdlib Require Import Reals Lra Lia ZArith.
From Stdlib Require Import Ascii.
From stdpp Require Import base tactics option list strings gmap pretty.

#[global] Instance R_eq_dec : EqDecision R := Req_dec_T.
#[global] Instance Rle_decision : RelDecision Rle := Rle_dec.
#[global] Instance Rlt_decision : RelDecision Rlt := Rlt_dec.

(** ** Exceptions and the result monad *)

Inductive exn :=
| RuntimeError
| ValueError
| ZeroDivisionError
| TypeError
| NameError
| AttributeError
| IndexError
| FileNotFoundError
| FileExistsError
| NotADirectoryError.

Inductive result (A : Type) :=
| Ok (a : A)
| Raise (e : exn).
Arguments Ok {A} a.
Arguments Raise {A} e.

#[global] Instance result_ret : MRet result := @Ok.
#[global] Instance result_bind : MBind result :=
λ A B f m, match m with Ok a => f a | Raise e => Raise e end.

#[global] Instance result_fmap : FMap result :=
λ A B f m, match m with Ok a => Ok (f a) | Raise e => Raise e end.

(** ** Python scalars *)

Module Py.

(** [x / n] for a float [x] and an int [n]. *)
Definition div (x : R) (n : Z) : result R :=
  if decide (n = 0%Z) then Raise ZeroDivisionError else Ok (x / IZR n)%R.

(** [math.log x]. *)
Definition log (x : R) : result R :=
  if decide (0 < x)%R then Ok (ln x) else Raise ValueError.

(** [str(n)] for an int. *)
Definition str (n : Z) : string := pretty n.

(** ['\n']: the one-character string of a line feed. *)
Definition newline : string := String "010"%char EmptyString.

(** [sep.join(parts)]. *)
Fixpoint join (sep : string) (parts : list string) : string :=
  match parts with
  | [] => ""
  | [p] => p
  | p :: ps => p +:+ sep +:+ join sep ps
  end.

End Py.

(** ** Tensors *)

Module Torch.

(** A tensor of shape (N, V): [ncols] is [size(-1)]. *)
Record mat := Mat { ncols : nat; rows : list (list R) }.

(** A tensor of shape (B, T, V). *)
Record tensor3 := T3 { vocab : nat; items : list (list (list R)) }.

(** The losses the criteria return: 0-dim, shape (N) or shape (N, 1). *)
Inductive tensor :=
| Scalar (x : R)
| Vector (xs : list R)
| Column (xs : list R).

(** [t.view(-1, t.size(-1))] *)
Definition view2 (t : tensor3) : mat := Mat (vocab t) (concat (items t)).

Definition t3_map (f : R → R) (t : tensor3) : tensor3 :=
  T3 (vocab t) (map (map (map f)) (items t)).

(** [t.sum()] of a one-dimensional tensor. *)
Definition sum_list (xs : list R) : R := foldr Rplus 0%R xs.

(** Pointwise combination of two tensors of one shape. *)
Fixpoint zip_exact {A B C} (f : A → B → C) (xs : list A) (ys : list B)
  : result (list C) :=
  match xs, ys with
  | [], [] => Ok []
  | x :: xs, y :: ys => zs ← zip_exact f xs ys; Ok (f x y :: zs)
  | _, _ => Raise RuntimeError
  end.

(** One row of [gather(dim=-1, index)]: the entry at column [t]. *)
Definition index_row (row : list R) (t : Z) : result R :=
  if decide (0 ≤ t)%Z then
    match row !! Z.to_nat t with
    | Some v => Ok v
    | None => Raise RuntimeError
    end
  else Raise RuntimeError.

(** [input.gather(dim=-1, index)] for an index of shape (N, 1). *)
Fixpoint gather (input : list (list R)) (index : list Z) : result (list R) :=
  match input, index with
  | [], [] => Ok []
  | row :: input, t :: index =>
      v ← index_row row t; vs ← gather input index; Ok (v :: vs)
  | _, _ => Raise RuntimeError
  end.

(** [t.masked_fill_(mask, v)] *)
Definition masked_fill (xs : list R) (mask : list bool) (v : R)
  : result (list R) :=
  zip_exact (λ x (b : bool), if b then v else x) xs mask.

(** [target.eq(ignore_index)] *)
Definition eq_mask (target : list Z) (idx : Z) : list bool :=
  (λ t, bool_decide (t = idx)) <$> target.

(** [t.max(dim=1, keepdim=True)] on one row; an empty row has no maximum. *)
Definition row_max (row : list R) : result R :=
  match row with
  | [] => Raise RuntimeError
  | x :: xs => Ok (foldl Rmax x xs)
  end.

(** [torch.log] on a positive entry. (At zero torch gives minus infinity
    and below zero not-a-number, which no real number stands for: the
    function is used on positive entries only.) *)
Definition log (x : R) : R := ln x.

(** [xlogy(x, y)] for a positive [y], and for [x] zero: zero where [x] is
    zero. *)
Definition xlogy (x y : R) : R := if decide (x = 0)%R then 0%R else (x * ln y)%R.

(** One entry of [F.kl_div(input, target, reduction='none')]. *)
Definition kl_elem (input target : R) : R :=
  (xlogy target target - target * input)%R.

(** [F.kl_div(input, target, reduction='none').sum(dim=-1)] *)
Fixpoint kl_rows (input target : list (list R)) : result (list R) :=
  match input, target with
  | [], [] => Ok []
  | i :: input, t :: target =>
      r ← zip_exact kl_elem i t; rs ← kl_rows input target;
      Ok (sum_list r :: rs)
  | _, _ => Raise RuntimeError
  end.

Definition tmap (f : R → R) (t : tensor) : tensor :=
  match t with
  | Scalar x => Scalar (f x)
  | Vector xs => Vector (f <$> xs)
  | Column xs => Column (f <$> xs)
  end.

(** [c * t] for a Python float [c]. *)
Definition tscale (c : R) (t : tensor) : tensor := tmap (Rmult c) t.

(** [t + c] for a Python float or a 0-dim tensor [c]. *)
Definition tadd_scalar (t : tensor) (c : R) : tensor := tmap (λ x, x + c)%R t.

(** [a + b] for two tensors of one shape (a 0-dim tensor broadcasts). *)
Definition tadd (a b : tensor) : result tensor :=
  match a, b with
  | Scalar x, _ => Ok (tmap (Rplus x) b)
  | _, Scalar y => Ok (tadd_scalar a y)
  | Vector xs, Vector ys => Vector <$> zip_exact Rplus xs ys
  | Column xs, Column ys => Column <$> zip_exact Rplus xs ys
  | _, _ => Raise RuntimeError
  end.

End Torch.

(** ** What the criteria see of fairseq *)

Module Fairseq.
Import Torch.

(** [sample['net_input']] *)
Record net_input := NetInput {
  src_tokens : list (list Z);
  src_lengths : list Z;
  prev_output_tokens : list (list Z) }.

(** A batch: [sample['target']] has shape (B, T). *)
Record sample := Sample {
  net_in : net_input;
  target : list (list Z);
  ntokens : Z }.

(** The second component of a decoder output. *)
Record extra := Extra {
  attn : option tensor3;
  inner_states : list tensor3 }.

(** [(x, extra)], or the one-element tuple [(x,)]. *)
Definition net_output : Type := tensor3 * option extra.

(** [EncoderOut]: a named tuple whose component 0 is the encoder's output,
    of shape (T, B, C). *)
Record encoder_out := EncoderOut {
  enc_out : tensor3;
  encoder_states : list tensor3 }.

(** A translation model as the criteria use it.  Its network is code of
    fairseq: every method is a function of the arguments it is called with
    and of the training flag. *)
Record Model := MkModel {
  training : bool;
  call : bool → net_input → net_output;
  forwards : bool → net_input → net_output * tensor3;
  encoder : bool → list (list Z) → list Z → encoder_out;
  decoder : bool → list (list Z) → encoder_out → list Z → net_output;
  get_normalized_probs : net_output → bool → tensor3 }.

(** [model.eval()] *)
Definition eval (m : Model) : Model :=
  MkModel false (call m) (forwards m) (encoder m) (decoder m)
    (get_normalized_probs m).

(** [model.get_targets(sample, net_output)] *)
Definition get_targets (s : sample) (_ : net_output) : list (list Z) :=
  target s.

(** Values of a [logging_output] dictionary. *)
Inductive logval :=
| LTensor (t : tensor)
| LInt (n : Z)
| LFloat (x : R).

End Fairseq.

(** ** docs/label_smoothed_cross_entropy-step2.py *)

Module Adapter.
Import Torch Fairseq.

(** [label_smoothed_nll_loss(lprobs, target, epsilon, ignore_index, reduce)].
    [target] is the list of the N target ids: the caller passes shape (N, 1),
    and a target of shape (N) is unsqueezed to it on entry. *)
Definition label_smoothed_nll_loss (lprobs : mat) (target : list Z)
    (epsilon : R) (ignore_index : option Z) (reduce : bool)
  : result (tensor * tensor) :=
  g ← gather (rows lprobs) target;
  let nll_loss := Ropp <$> g in
  let smooth_loss := (λ row, - sum_list row)%R <$> rows lprobs in
  '(nll_loss, smooth_loss, shape) ←
    match ignore_index with
    | Some idx =>
        let pad_mask := eq_mask target idx in
        n ← masked_fill nll_loss pad_mask 0%R;
        s ← masked_fill smooth_loss pad_mask 0%R;
        Ok (n, s, Column)
    | None => Ok (nll_loss, smooth_loss, Vector)
    end;
  let nll_loss := if reduce then Scalar (sum_list nll_loss) else shape nll_loss in
  let smooth_loss :=
    if reduce then Scalar (sum_list smooth_loss) else shape smooth_loss in
  eps_i ← Py.div epsilon (Z.of_nat (ncols lprobs));
  loss ← tadd (tscale (1 - epsilon)%R nll_loss) (tscale eps_i smooth_loss);
  Ok (loss, nll_loss).

(** What [knnbox.retriever.Retriever.retrieve] leaves in [results]. *)
Record retrieval := Retrieval {
  vals : list (list (list Z));
  distances : list (list (list R)) }.

(** The retriever and the combiner are objects of [knnbox]; the criterion
    only calls them. *)
Record Retriever := MkRetriever {
  retrieve : tensor3 → retrieval;
  results : option retrieval }.

Record Combiner := MkCombiner {
  get_knn_prob : retrieval → tensor3;
  get_combined_prob : tensor3 → tensor3 → bool → tensor3 }.

Record criterion := Criterion {
  sentence_avg : bool;
  eps : R;
  padding_idx : Z;
  prior_tau : R;
  num : nat;
  teacher_model : option Model;
  distil_strategy : string;
  real_distil_rate : R;
  retriever : Retriever;
  combiner : Combiner }.

(** [get_teacher_probs]: the matrix [compute_loss] calls [kNN_prob]. *)
Definition get_teacher_probs (self : criterion) (teacher_output : net_output)
  : result mat :=
  match results (retriever self) with
  | None => Raise TypeError
  | Some res =>
      let knn_prob := get_knn_prob (combiner self) res in
      let combined_prob :=
        get_combined_prob (combiner self) knn_prob
          (t3_map (λ x, x / prior_tau self)%R teacher_output.1) false in
      Ok (view2 combined_prob)
  end.

Definition get_teacher_probs_direct (self : criterion)
    (teacher_output : net_output) : result mat :=
  match teacher_model self with
  | None => Raise AttributeError
  | Some tm => Ok (view2 (get_normalized_probs tm teacher_output false))
  end.

(** [kNN_prob.max(dim=1, keepdim=True)] *)
Fixpoint row_maxes (m : list (list R)) : result (list R) :=
  match m with
  | [] => Ok []
  | row :: m => x ← row_max row; xs ← row_maxes m; Ok (x :: xs)
  end.

(** [(knn_target_values >= knn_max_values).float()] *)
Definition ge_mask (target_values max_values : list R) : result (list R) :=
  zip_exact (λ v m, if decide (m <= v)%R then 1%R else 0%R)
    target_values max_values.

(** The mask of the ['adapter_direct'] branch: the gold entries of
    [kNN_prob], its row maxima, and their comparison. *)
Definition adapter_direct_mask (kNN_prob : list (list R)) (target : list Z)
  : result (list R) :=
  knn_target_values ← gather kNN_prob target;
  knn_max_values ← row_maxes kNN_prob;
  ge_mask knn_target_values knn_max_values.

(** [m * c] for a column [c] of shape (N, 1). *)
Definition scale_rows (f : R → R → R) (m : list (list R)) (c : list R)
  : result (list (list R)) :=
  zip_exact (λ row mk, (λ x, f x mk) <$> row) m c.

(** [a + b] for two matrices. *)
Fixpoint mat_add (a b : list (list R)) : result (list (list R)) :=
  match a, b with
  | [], [] => Ok []
  | x :: a, y :: b => r ← zip_exact Rplus x y; rs ← mat_add a b; Ok (r :: rs)
  | _, _ => Raise RuntimeError
  end.

(** The KL term of both distillation branches:
    [F.kl_div(lprobs, q, reduction='none').sum(dim=-1)], padding rows
    filled with zero, then summed. *)
Definition masked_kl (lprobs q : list (list R)) (pad_mask : list bool)
  : result R :=
  kl ← kl_rows lprobs q;
  kl ← masked_fill kl pad_mask 0%R;
  Ok (sum_list kl).

(** [lprobs] of [compute_loss]: the logarithm of the student's
    probabilities, viewed as (N, V). *)
Definition student_lprobs (model : Model) (output : net_output) : mat :=
  let probs := get_normalized_probs model output false in
  view2 (t3_map log probs).

(** [target] of [compute_loss]: [target.view(-1, 1)]. *)
Definition flat_target (s : sample) (output : net_output) : list Z :=
  concat (get_targets s output).

(** [compute_loss]. The test [distil_strategy == 'normal' or teacher_output
    is None] is the first case of each of the two matches. The dead values
    [t_probs] and [t_lprobs] of the source are not bound. [loss] and
    [nll_loss] stay [None] for a strategy that is none of the three. *)
Definition compute_loss (self : criterion) (model : Model)
    (output : net_output) (s : sample) (reduce : bool)
    (teacher_output : option net_output) (strategy : string)
  : result (option tensor * option tensor * gmap string tensor) :=
  let lprobs := student_lprobs model output in
  let target := flat_target s output in
  let pad_mask := eq_mask target (padding_idx self) in
  match teacher_output with
  | None =>
      '(loss, nll_loss) ←
        label_smoothed_nll_loss lprobs target (eps self)
          (Some (padding_idx self)) reduce;
      Ok (Some loss, Some nll_loss, ∅)
  | Some teacher_output =>
      if decide (strategy = "normal") then
        '(loss, nll_loss) ←
          label_smoothed_nll_loss lprobs target (eps self)
            (Some (padding_idx self)) reduce;
        Ok (Some loss, Some nll_loss, ∅)
      else if decide (strategy = "direct") then
        '(golden_loss, nll_loss) ←
          label_smoothed_nll_loss lprobs target (eps self)
            (Some (padding_idx self)) reduce;
        nmt_prob ← get_teacher_probs_direct self teacher_output;
        KL_loss ← masked_kl (rows lprobs) (rows nmt_prob) pad_mask;
        Ok (Some (Scalar KL_loss), Some nll_loss,
            {[ "KD_loss" := Scalar KL_loss ]})
      else if decide (strategy = "adapter_direct") then
        '(golden_loss, nll_loss) ←
          label_smoothed_nll_loss lprobs target (eps self)
            (Some (padding_idx self)) reduce;
        nmt_prob ← get_teacher_probs_direct self teacher_output;
        kNN_prob ← get_teacher_probs self teacher_output;
        mask ← adapter_direct_mask (rows kNN_prob) target;
        knn_prob ← scale_rows (λ x mk, 0.5 * x * mk)%R (rows kNN_prob) mask;
        nmt_prob ←
          scale_rows (λ x mk, x * (1 - 0.5 * mk))%R (rows nmt_prob) mask;
        distil_lprobs ← mat_add knn_prob nmt_prob;
        KL_loss ← masked_kl (rows lprobs) distil_lprobs pad_mask;
        Ok (Some (tadd_scalar golden_loss (2.0 * KL_loss)%R), Some nll_loss,
            {[ "KD_loss" := Scalar KL_loss ]})
      else Ok (None, None, ∅)
  end.

(** Autograd: the switch [torch.no_grad()] turns off, and the network calls
    made, each recorded with the switch at the time of the call. *)
Inductive event :=
| StudentForward (grad : bool)
| TeacherForwards (grad : bool)
| Retrieve (grad : bool).

Record world := World { grad_enabled : bool; calls : list event }.

Definition emit (e : bool → event) (w : world) : world :=
  World (grad_enabled w) (calls w ++ [e (grad_enabled w)]).

(** [with torch.no_grad(): body] *)
Definition no_grad {A} (body : world → A * world) (w : world) : A * world :=
  let '(a, w') := body (World false (calls w)) in
  (a, World (grad_enabled w) (calls w')).

Definition set_teacher_model (self : criterion) (tm : option Model) : criterion :=
  Criterion (sentence_avg self) (eps self) (padding_idx self) (prior_tau self)
    (num self) tm (distil_strategy self) (real_distil_rate self)
    (retriever self) (combiner self).

Definition set_num (self : criterion) (n : nat) : criterion :=
  Criterion (sentence_avg self) (eps self) (padding_idx self) (prior_tau self)
    n (teacher_model self) (distil_strategy self) (real_distil_rate self)
    (retriever self) (combiner self).

Definition set_results (self : criterion) (r : option retrieval) : criterion :=
  Criterion (sentence_avg self) (eps self) (padding_idx self) (prior_tau self)
    (num self) (teacher_model self) (distil_strategy self)
    (real_distil_rate self)
    (MkRetriever (retrieve (retriever self)) r) (combiner self).

(** The teacher pass of [forward]: taken when a teacher is loaded and the
    strategy is not ['normal']. *)
Definition teacher_pass (self : criterion) (s : sample) (w : world)
  : option net_output * criterion * world :=
  match teacher_model self with
  | Some tm =>
      if decide (distil_strategy self ≠ "normal") then
        no_grad (λ w,
          let '(teacher_output, query) := forwards tm (training tm) (net_in s) in
          let w := emit TeacherForwards w in
          let self := set_results self (Some (retrieve (retriever self) query)) in
          let w := emit Retrieve w in
          (Some teacher_output, self, w)) w
      else (None, self, w)
  | None => (None, self, w)
  end.

Definition logging_output (self : criterion) (s : sample) (loss : tensor)
    (nll_loss : option tensor) (sample_size : Z)
    (extra_result : gmap string tensor) : gmap string logval :=
  <[ "loss" := LTensor loss ]>
  (<[ "nll_loss" := LTensor (default loss nll_loss) ]>
  (<[ "ntokens" := LInt (ntokens s) ]>
  (<[ "nsentences" := LInt (Z.of_nat (length (target s))) ]>
  (<[ "sample_size" := LInt sample_size ]>
  (<[ "distil_rate" := LFloat (real_distil_rate self) ]>
  (<[ "gpu_nums" := LInt 1 ]>
  (<[ "KD_loss" := from_option LTensor (LInt 0) (extra_result !! "KD_loss") ]>
  (<[ "nll_loss_distil" :=
        from_option LTensor (LInt 0) (extra_result !! "nll_loss_distil") ]>
   ∅)))))))).

(** [forward]. [checkpoint] is the model [load_model_ensemble] reads on the
    first call; the [teacher_model] argument of the source is not used by
    it. The criterion and the autograd world are threaded through; they
    keep their changes when [compute_loss] raises. *)
Definition forward (self : criterion) (checkpoint : Model) (model : Model)
    (s : sample) (reduce : bool) (w : world)
  : criterion * world * result (tensor * Z * gmap string logval) :=
  let self :=
    if decide (num self = 0) then set_teacher_model self (Some (eval checkpoint))
    else self in
  let self := set_num self (S (num self)) in
  let output := call model (training model) (net_in s) in
  let w := emit StudentForward w in
  let '(teacher_output, self, w) := teacher_pass self s w in
  (self, w,
   '(loss, nll_loss, extra_result) ←
     compute_loss self model output s reduce teacher_output
       (distil_strategy self);
   match loss with
   | None => Raise AttributeError
   | Some loss =>
       let sample_size :=
         if sentence_avg self then Z.of_nat (length (target s))
         else ntokens s in
       Ok (loss, sample_size,
           logging_output self s loss nll_loss sample_size extra_result)
   end).

(** The distillation target of the ['adapter_direct'] branch of
    [compute_loss], from [knn_target_values] to [distil_lprobs]. *)
Definition distil_target (kNN_prob nmt_prob : list (list R)) (target : list Z)
  : result (list (list R)) :=
  mask ← adapter_direct_mask kNN_prob target;
  knn_prob ← scale_rows (λ x mk, 0.5 * x * mk)%R kNN_prob mask;
  nmt_prob ← scale_rows (λ x mk, x * (1 - 0.5 * mk))%R nmt_prob mask;
  mat_add knn_prob nmt_prob.

(** [push_to_FIFO_queue]: [queue] is [self.queue] before the call and the
    result is [self.queue] after it; [tensor] is [tensor.detach().view(-1)];
    [difficult_queue_size] is the attribute of that name. A slice that
    starts past the end of the queue is empty. *)
Definition push_to_FIFO_queue (difficult_queue_size : Z)
    (queue tensor : list R) : list R :=
  let tensor_size := length tensor in
  let current_size := length queue in
  if decide (Z.of_nat tensor_size + Z.of_nat current_size
             < difficult_queue_size)%Z
  then queue ++ tensor
  else drop tensor_size queue ++ tensor.

(** [push_to_teacher_FIFO_queue]: the same on [self.teacher_loss_queue]. *)
Definition push_to_teacher_FIFO_queue (difficult_queue_size : Z)
    (teacher_loss_queue tensor : list R) : list R :=
  let tensor_size := length tensor in
  let current_size := length teacher_loss_queue in
  if decide (Z.of_nat tensor_size + Z.of_nat current_size
             < difficult_queue_size)%Z
  then teacher_loss_queue ++ tensor
  else drop tensor_size teacher_loss_queue ++ tensor.

(** [F.kl_div(input, target, reduction='none')] on two matrices. *)
Fixpoint kl_div (input target : list (list R)) : result (list (list R)) :=
  match input, target with
  | [], [] => Ok []
  | i :: input, t :: target =>
      r ← zip_exact kl_elem i t; rs ← kl_div input target; Ok (r :: rs)
  | _, _ => Raise RuntimeError
  end.

(** [js_div(p, q)] *)
Definition js_div (p q : list (list R)) : result (list (list R)) :=
  sum ← mat_add p q;
  let mean := map (map (λ x, x / 2.0)%R) sum in
  let mean_log := map (map log) mean in
  p_mean ← kl_div mean_log p;
  q_mean ← kl_div mean_log q;
  total ← mat_add p_mean q_mean;
  Ok (map (map (λ x, x / 2.0)%R) total).

(** [probs] of [compute_loss]: the student's probabilities, viewed as
    (N, V). *)
Definition student_probs (model : Model) (output : net_output) : mat :=
  view2 (get_normalized_probs model output false).

End Adapter.

(** ** Files *)

Module Os.

(** The directories that exist and the content of every regular file. *)
Record fs := FS { dirs : gset string; files : gmap string string }.

(** Code that reads and writes files; the file system keeps what was
    written when an exception is raised. *)
Definition io (A : Type) : Type := fs → fs * result A.

Definition ret {A} (a : A) : io A := λ f, (f, Ok a).

Definition bind {A B} (m : io A) (k : A → io B) : io B :=
  λ f, match m f with
       | (f', Ok a) => k a f'
       | (f', Raise e) => (f', Raise e)
       end.

Definition lift {A} (r : result A) : io A := λ f, (f, r).

(** [os.path.exists(p)] *)
Definition path_exists (p : string) (f : fs) : bool :=
  bool_decide (p ∈ dirs f) || bool_decide (is_Some (files f !! p)).

(** [p] without its trailing slashes. *)
Fixpoint rstrip_slash (p : string) : string :=
  match p with
  | EmptyString => EmptyString
  | String c p =>
      match rstrip_slash p with
      | EmptyString =>
          if decide (c = "/"%char) then EmptyString else String c EmptyString
      | rest => String c rest
      end
  end.

(** The text of [p] before its last slash; none when [p] holds no slash. *)
Fixpoint dirname (p : string) : option string :=
  match p with
  | EmptyString => None
  | String c p =>
      match dirname p with
      | Some d => Some (String c d)
      | None => if decide (c = "/"%char) then Some EmptyString else None
      end
  end.

(** [os.mkdir(p)]. Paths are taken as they are written (no [.] or [..],
    no doubled slash). The empty path names nothing; a path of slashes only
    is the root, which exists; the directory above [p] has to be a
    directory: the current directory for a name without a slash and the
    root for a name right below it do exist. *)
Definition mkdir (p : string) : io unit :=
  λ f, if decide (p = "") then (f, Raise FileNotFoundError)
       else if decide (rstrip_slash p = "") then (f, Raise FileExistsError)
       else if path_exists p f then (f, Raise FileExistsError)
       else
         let made := (FS ({[ p ]} ∪ dirs f) (files f), Ok tt) in
         match dirname (rstrip_slash p) with
         | None | Some EmptyString => made
         | Some d =>
             if decide (d ∈ dirs f) then made
             else if decide (is_Some (files f !! d))
             then (f, Raise NotADirectoryError)
             else (f, Raise FileNotFoundError)
         end.

Fixpoint ends_with_slash (p : string) : bool :=
  match p with
  | EmptyString => false
  | String c EmptyString => bool_decide (c = "/"%char)
  | String _ p => ends_with_slash p
  end.

(** [os.path.join(a, b)] for a relative [b]. *)
Definition join (a b : string) : string :=
  if decide (a = "") then b
  else if ends_with_slash a then a +:+ b
  else a +:+ "/" +:+ b.

(** The text of the file [p]; empty for a file that does not exist. *)
Definition content (p : string) (f : fs) : string := default "" (files f !! p).

(** The file [p] exists afterwards, with the text it had. *)
Definition touch (p : string) (f : fs) : fs :=
  FS (dirs f) (<[ p := content p f ]> (files f)).

(** [open(os.path.join(dir, name), 'a+')]: the file is created when it is
    missing; [dir] has to be a directory. *)
Definition open_append (dir name : string) : io string :=
  λ f, if decide (dir ∈ dirs f ∨ dir = "") then
         (touch (join dir name) f, Ok (join dir name))
       else (f, Raise NotADirectoryError).

(** The file system after [text] is appended to the file [p]. *)
Definition append (p text : string) (f : fs) : fs :=
  FS (dirs f) (<[ p := content p f +:+ text ]> (files f)).

(** The file system after one line is appended to each of three files. *)
Definition append3 (p1 p2 p3 : string) (f : fs)
    (lines : string * string * string) : fs :=
  append p3 lines.2 (append p2 lines.1.2 (append p1 lines.1.1 f)).

(** [handle.write(text)] on a file opened for appending. *)
Definition write (p text : string) : io unit := λ f, (append p text f, Ok tt).

(** [for x in xs: body(x)] *)
Fixpoint for_each {A} (xs : list A) (body : A → io unit) : io unit :=
  match xs with
  | [] => ret tt
  | x :: xs => bind (body x) (λ _, for_each xs body)
  end.

End Os.

(** ** docs/kd/criterions/record_topk_predictions.py *)

Module RecordTopk.
Import Torch Fairseq.

(** [label_smoothed_nll_loss] of this file: the smoothing mass is spread over
    the other V - 1 classes and the entropy of the smoothed target is
    added. *)
Definition label_smoothed_nll_loss (lprobs : mat) (target : list Z)
    (epsilon : R) (ignore_index : option Z) (reduce : bool)
  : result (tensor * tensor) :=
  g ← gather (rows lprobs) target;
  let nll_loss := Ropp <$> g in
  let smooth_loss := (λ row, - sum_list row)%R <$> rows lprobs in
  '(nll_loss, smooth_loss, shape) ←
    match ignore_index with
    | Some idx =>
        let pad_mask := eq_mask target idx in
        n ← masked_fill nll_loss pad_mask 0%R;
        s ← masked_fill smooth_loss pad_mask 0%R;
        Ok (n, s, Column)
    | None => Ok (nll_loss, smooth_loss, Vector)
    end;
  let nll_loss := if reduce then Scalar (sum_list nll_loss) else shape nll_loss in
  let smooth_loss :=
    if reduce then Scalar (sum_list smooth_loss) else shape smooth_loss in
  let classes := (Z.of_nat (ncols lprobs) - 1)%Z in
  eps_i ← Py.div epsilon classes;
  loss ←
    tadd (tscale (1 - epsilon - eps_i)%R nll_loss) (tscale eps_i smooth_loss);
  log_keep ← Py.log (1 - epsilon)%R;
  log_eps_i ← Py.log eps_i;
  Ok (tadd_scalar loss
        ((1 - epsilon) * log_keep + eps_i * log_eps_i * IZR classes)%R,
      nll_loss).

Record criterion := Criterion {
  sentence_avg : bool;
  eps : R;
  padding_idx : Z;
  result_path : string;
  topk : Z;
  ignore_prefix_size : Z;
  report_accuracy : bool }.

(** [get_lprobs_and_target]: a tensor has no attribute [batch_first], so a
    positive [ignore_prefix_size] drops leading entries of dimension 0. *)
Definition get_lprobs_and_target (self : criterion) (model : Model)
    (output : net_output) (s : sample) : mat * list Z :=
  let lprobs := get_normalized_probs model output true in
  let target := get_targets s output in
  let k := Z.to_nat (ignore_prefix_size self) in
  let '(lprobs, target) :=
    if decide (0 < ignore_prefix_size self)%Z
    then (T3 (vocab lprobs) (drop k (items lprobs)), drop k target)
    else (lprobs, target) in
  (view2 lprobs, concat target).

Definition compute_loss (self : criterion) (model : Model)
    (output : net_output) (s : sample) (reduce : bool)
  : result (tensor * tensor) :=
  let '(lprobs, target) := get_lprobs_and_target self model output s in
  label_smoothed_nll_loss lprobs target (eps self)
    (Some (padding_idx self)) reduce.

(** [torch.topk(logits, k, dim=-1)[1]]: [topk k row] are the indices torch
    selects in one row; it raises when [k] is out of range. *)
Definition topk_indices (topk : Z → list R → result (list Z)) (k : Z)
    (logits : tensor3) : result (list (list (list Z))) :=
  mapM (mapM (topk k)) (items logits).

(** [t[i, j]] *)
Definition at2 {A} (t : list (list A)) (i j : nat) : result A :=
  match t !! i ≫= (.!! j) with
  | Some x => Ok x
  | None => Raise IndexError
  end.

(** [t.shape[1]] of a tensor of shape (B, T); not used when B = 0. *)
Definition shape1 {A} (t : list (list A)) : nat :=
  match t with
  | [] => 0
  | row :: _ => length row
  end.

(** [' '.join(list(map(str, ids))) + '\n'] *)
Definition preds_line (ids : list Z) : string :=
  Py.join " " (Py.str <$> ids) +:+ Py.newline.

(** [str(t) + '\n'] *)
Definition gold_line (t : Z) : string := Py.str t +:+ Py.newline.

(** The three lines of position (i, j); none at a padding position. *)
Definition token_lines (self : criterion)
    (teacher_topk_preds student_topk_preds : list (list (list Z)))
    (target : list (list Z)) (i j : nat)
  : result (option (string * string * string)) :=
  t ← at2 target i j;
  if decide (t ≠ padding_idx self) then
    tea ← at2 teacher_topk_preds i j;
    stu ← at2 student_topk_preds i j;
    t ← at2 target i j;
    Ok (Some (preds_line tea, preds_line stu, gold_line t))
  else Ok None.

(** The lines a position contributes: one triple, or none. *)
Definition lines_at (self : criterion)
    (teacher_topk_preds student_topk_preds : list (list (list Z)))
    (target : list (list Z)) (i j : nat) : list (string * string * string) :=
  match token_lines self teacher_topk_preds student_topk_preds target i j with
  | Ok (Some lines) => [lines]
  | _ => []
  end.

(** The body of the two loops over the positions. *)
Definition write_token (self : criterion)
    (teacher_topk_preds student_topk_preds : list (list (list Z)))
    (target : list (list Z)) (f_tea f_stu f_gold : string) (i j : nat)
  : Os.io unit :=
  Os.bind
    (Os.lift (token_lines self teacher_topk_preds student_topk_preds target i j))
    (λ lines,
       match lines with
       | Some (tea_line, stu_line, gold_line) =>
           Os.bind (Os.write f_tea tea_line) (λ _,
           Os.bind (Os.write f_stu stu_line) (λ _,
           Os.write f_gold gold_line))
       | None => Os.ret tt
       end).

(** The three files of the dump. *)
Definition tea_file (self : criterion) : string :=
  Os.join (result_path self)
    ("teacher_top" +:+ Py.str (topk self) +:+ "_preds.txt").

Definition stu_file (self : criterion) : string :=
  Os.join (result_path self)
    ("student_top" +:+ Py.str (topk self) +:+ "_preds.txt").

Definition gold_file (self : criterion) : string :=
  Os.join (result_path self) "golden_targets.txt".

(** The dump of the predictions: the branch of [forward] taken with a
    teacher, up to the end of the [with] block. The values [teacher_preds],
    [student_preds] and [acc] are computed and dropped; they need a
    vocabulary that is not empty and logits of the shape of the target
    (shapes that differ but broadcast are not told apart from a mismatch). *)
Definition dump_predictions (self : criterion)
    (topk_row : Z → list R → result (list Z))
    (teacher_logits student_logits : tensor3) (target : list (list Z))
  : Os.io unit :=
  Os.bind (Os.lift (topk_indices topk_row (topk self) teacher_logits))
    (λ teacher_topk_preds,
  Os.bind (Os.lift (topk_indices topk_row (topk self) student_logits))
    (λ student_topk_preds,
  Os.bind
    (λ f, if Os.path_exists (result_path self) f then Os.ret tt f
          else Os.mkdir (result_path self) f)
    (λ _,
  Os.bind
    (Os.lift
       (if decide (vocab teacher_logits = 0 ∨ vocab student_logits = 0)
        then Raise RuntimeError
        else if decide (length <$> items teacher_logits = length <$> target)
        then Ok tt else Raise RuntimeError))
    (λ _,
  Os.bind
    (Os.open_append (result_path self)
       ("teacher_top" +:+ Py.str (topk self) +:+ "_preds.txt"))
    (λ f_tea,
  Os.bind
    (Os.open_append (result_path self)
       ("student_top" +:+ Py.str (topk self) +:+ "_preds.txt"))
    (λ f_stu,
  Os.bind (Os.open_append (result_path self) "golden_targets.txt")
    (λ f_gold,
  Os.for_each (seq 0 (length target)) (λ i,
    Os.for_each (seq 0 (shape1 target)) (λ j,
      write_token self teacher_topk_preds student_topk_preds target
        f_tea f_stu f_gold i j))))))))).

Definition logging_output (s : sample) (loss mle_loss nll_loss : tensor)
    (sample_size : Z) : gmap string logval :=
  <[ "loss" := LTensor loss ]>
  (<[ "mle_loss" := LTensor mle_loss ]>
  (<[ "nll_loss" := LTensor nll_loss ]>
  (<[ "kd_loss1" := LTensor (tmap (λ _, 0%R) loss) ]>
  (<[ "kd_loss2" := LTensor (tmap (λ _, 0%R) loss) ]>
  (<[ "ntokens" := LInt (ntokens s) ]>
  (<[ "nsentences" := LInt (Z.of_nat (length (target s))) ]>
  (<[ "sample_size" := LInt sample_size ]> ∅))))))).

(** The encoder pass and the decoder pass [forward] makes on a model:
    [model.encoder(src_tokens, src_lengths=..., return_all_hiddens=True)],
    then [model.decoder(prev_output_tokens, encoder_out=..., ...)]. *)
Definition run (model : Model) (s : sample) : net_output :=
  let enc_out :=
    encoder model (training model) (src_tokens (net_in s))
      (src_lengths (net_in s)) in
  decoder model (training model) (prev_output_tokens (net_in s)) enc_out
    (src_lengths (net_in s)).

(** [forward]. Returned with the file system: the two models, which
    [eval()] has switched to evaluation, and the result. With
    [report_accuracy] the name [net_output] is read, which [forward] never
    binds. *)
Definition forward (self : criterion)
    (topk_row : Z → list R → result (list Z))
    (model : Model) (s : sample) (teacher_model : option Model)
    (reduce : bool)
  : Os.fs → Os.fs * (Model * option Model * result (tensor * Z * gmap string logval)) :=
  λ f,
  let model := eval model in
  let student_dec_out := run model s in
  match compute_loss self model student_dec_out s reduce with
  | Raise e => (f, (model, teacher_model, Raise e))
  | Ok (mle_loss, nll_loss) =>
      let teacher_model := eval <$> teacher_model in
      let '(f, dumped) :=
        match teacher_model with
        | Some teacher =>
            let teacher_dec_out := run teacher s in
            match dump_predictions self topk_row teacher_dec_out.1
                    student_dec_out.1 (target s) f with
            | (f, Ok _) => (f, Ok (tmap (λ x, x * 0.0)%R mle_loss))
            | (f, Raise e) => (f, Raise e)
            end
        | None => (f, Ok mle_loss)
        end in
      (f, (model, teacher_model,
           loss ← dumped;
           let sample_size :=
             if sentence_avg self then Z.of_nat (length (target s))
             else ntokens s in
           let logging := logging_output s loss mle_loss nll_loss sample_size in
           if report_accuracy self then Raise NameError
           else Ok (loss, sample_size, logging)))
  end.

(** [t.masked_select(mask)] for a tensor and a mask of one shape. *)
Fixpoint masked_select {A} (xs : list A) (mask : list bool)
  : result (list A) :=
  match xs, mask with
  | [], [] => Ok []
  | x :: xs, b :: mask =>
      ys ← masked_select xs mask; Ok (if b then x :: ys else ys)
  | _, _ => Raise RuntimeError
  end.

(** [torch.sum] of a tensor of booleans. *)
Definition count_true (bs : list bool) : Z :=
  Z.of_nat (length (filter (λ b : bool, b = true) bs)).

(** [compute_accuracy]. [argmax] is [torch.argmax] on one row, which raises
    on an empty row. The result is [(n_correct, total)]. *)
Definition compute_accuracy (self : criterion)
    (argmax : list R → result Z) (model : Model) (output : net_output)
    (s : sample) : result (Z * Z) :=
  let '(lprobs, target) := get_lprobs_and_target self model output s in
  let mask := (λ t, bool_decide (t ≠ padding_idx self)) <$> target in
  preds ← mapM argmax (rows lprobs);
  preds ← masked_select preds mask;
  gold ← masked_select target mask;
  hits ← zip_exact (λ a b : Z, bool_decide (a = b)) preds gold;
  Ok (count_true hits, count_true mask).

End RecordTopk.

(** ** knnbox.combiner

    The combiner's code is not among the sources; its contract is the one
    the specification gives. *)

Module Combiner.

(** An entry of a tensor of logarithms: [torch.log] gives minus infinity at
    zero and not-a-number below it. *)
Inductive xreal :=
| Finite (x : R)
| NegInf
| NaN.

(** [torch.log] on one entry. *)
Definition torch_log (x : R) : xreal :=
  if decide (0 < x)%R then Finite (ln x)
  else if decide (x = 0)%R then NegInf
  else NaN.

(** Modelled from the spec: the combiner of [knnbox.combiner], which holds
    the interpolation weight lambda and the floor applied before a
    logarithm; [model_prob] turns the model's output for one token into its
    probabilities. *)
Record combiner := MkCombiner {
  lambda : R;
  floor : R;
  model_prob : list R → list R }.

(** Modelled from the spec: the mixture of [get_combined_prob], which is
    missing from the sources,
    [lambda * knn_prob + (1 - lambda) * model_prob]. *)
Definition mixture (c : combiner) (knn_prob model_out : list R) : list R :=
  zip_with (λ k m, lambda c * k + (1 - lambda c) * m)%R
    knn_prob (model_prob c model_out).

(** Modelled from the spec: [get_combined_prob(knn_prob, model_out,
    log_probs)], which is missing from the sources. With [log_probs] it is
    the natural logarithm of the mixture, no entry of which is taken below
    the floor. *)
Definition get_combined_prob (c : combiner) (knn_prob model_out : list R)
    (log_probs : bool) : list xreal :=
  let combined := mixture c knn_prob model_out in
  if log_probs then (λ x, torch_log (Rmax x (floor c))) <$> combined
  else Finite <$> combined.

End Combiner.

(** ** knnbox/models/adaptive_knn_mt.py *)

Module AdaptiveKnnMt.
Import Torch Fairseq.

(** The options the model reads. [source_weight] is read by
    [get_normalized_probs] and is declared by no [add_argument]. *)
Record args := Args {
  knn_mode : string;
  knn_max_k : Z;
  source_weight : option R }.

(** A parameter of a network: the modules it lies in, outermost first, and
    its own name. [named_parameters()] maps it to its [requires_grad]. *)
Definition param : Type := list string * string.

(** Modelled from the spec: [knnbox.common_utils.disable_model_grad], which
    is missing from the sources. It freezes every parameter of the model. *)
Definition disable_model_grad (params : gmap param bool) : gmap param bool :=
  (λ _, false) <$> params.

(** Modelled from the spec: [knnbox.common_utils.enable_module_grad], which
    is missing from the sources. It enables the gradient of the parameters
    that lie in a module of the given name. *)
Definition enable_module_grad (params : gmap param bool) (module_name : string)
  : gmap param bool :=
  map_imap (λ (p : param) g,
              Some (if decide (module_name ∈ p.1) then true else g)) params.

(** [AdaptiveKNNMT.__init__]: [params] are the parameters of the model that
    [TransformerModel.__init__] has put together from the encoder and the
    decoder. *)
Definition init (a : args) (params : gmap param bool) : gmap param bool :=
  if decide (knn_mode a = "train_metak") then
    enable_module_grad (disable_model_grad params) "combiner"
  else params.

(** The arguments that [forward] hands on to [extract_features] unchanged. *)
Record features_args := FeaturesArgs {
  incremental_state : option (list tensor3);
  full_context_alignment : bool;
  alignment_layer : option Z;
  alignment_heads : option Z }.

(** [TransformerDecoder] of fairseq, the base class: the methods the
    subclass calls. *)
Record Base := MkBase {
  extract_features :
    list (list Z) → option encoder_out → features_args → tensor3 * extra;
  output_layer : tensor3 → tensor3;
  base_get_normalized_probs : net_output → bool → option sample → tensor3 }.

(** What the retriever leaves in [results]. *)
Record retrieval := Retrieval {
  vals : list (list (list Z));
  distances : list (list (list R)) }.

(** The retriever and the combiner of [knnbox], as the decoder calls them. *)
Record Retriever := MkRetriever {
  fast_faiss_retrieve_with_hidden :
    tensor3 → tensor3 → list (list Z) → nat → string → retrieval;
  results : option retrieval }.

Record KnnCombiner := MkKnnCombiner {
  get_knn_prob : retrieval → tensor3 → R → tensor3;
  get_combined_prob : tensor3 → tensor3 → bool → tensor3 }.

(** An [AdaptiveKNNMTDecoder]. In the mode ["build_datastore"] the
    constructor creates neither retriever nor combiner. *)
Record decoder := Decoder {
  dec_args : args;
  base : Base;
  retriever : option Retriever;
  combiner : option KnnCombiner;
  hidden_dic : list (list Z);
  gen_len : nat;
  cache_hidden : option tensor3 }.

(** [t.transpose(0, 1)] *)
Definition transpose01 (t : tensor3) : tensor3 :=
  let inner := match items t with [] => 0 | x :: _ => length x end in
  T3 (vocab t)
    ((λ b, (λ row : list (list R), default [] (row !! b)) <$> items t)
     <$> seq 0 inner).

(** [torch.mean(t, dim=1).unsqueeze(1)] *)
Definition mean1 (t : tensor3) : tensor3 :=
  T3 (vocab t)
    ((λ rows : list (list R),
        [ (λ x, x / INR (length rows))%R
          <$> foldr (zip_with Rplus) (replicate (vocab t) 0%R) rows ])
     <$> items t).

(** [prev_output_tokens.shape[1]] *)
Definition shape1 (t : list (list Z)) : nat :=
  match t with
  | [] => 0
  | row :: _ => length row
  end.

Definition set_forward_state (self : decoder) (n : nat)
    (hidden : option tensor3) (r : option Retriever) : decoder :=
  Decoder (dec_args self) (base self) r (combiner self) (hidden_dic self)
    n hidden.

(** [AdaptiveKNNMTDecoder.forward]. The decoder is returned with the
    attributes the call has set. [encoder_out[0]] needs an encoder output. *)
Definition forward (self : decoder) (prev_output_tokens : list (list Z))
    (enc : option encoder_out) (fargs : features_args) (features_only : bool)
  : decoder * result (tensor3 * extra) :=
  let self :=
    set_forward_state self (shape1 prev_output_tokens) (cache_hidden self)
      (retriever self) in
  let '(x, extra) := extract_features (base self) prev_output_tokens enc fargs in
  match enc with
  | None => (self, Raise TypeError)
  | Some out =>
      let encoder_hidden := mean1 (transpose01 (enc_out out)) in
      let self :=
        set_forward_state self (gen_len self) (Some encoder_hidden)
          (retriever self) in
      let retrieved : result decoder :=
        if decide (knn_mode (dec_args self) = "build_datastore") then Ok self
        else if decide (knn_mode (dec_args self) = "inference"
                        ∨ knn_mode (dec_args self) = "train_metak") then
          match retriever self with
          | None => Raise AttributeError
          | Some r =>
              Ok (set_forward_state self (gen_len self) (cache_hidden self)
                    (Some (MkRetriever (fast_faiss_retrieve_with_hidden r)
                             (Some (fast_faiss_retrieve_with_hidden r x
                                      encoder_hidden (hidden_dic self)
                                      (gen_len self)
                                      (knn_mode (dec_args self)))))))
          end
        else Ok self in
      match retrieved with
      | Raise e => (self, Raise e)
      | Ok self =>
          (self,
           Ok (if features_only then x else output_layer (base self) x, extra))
      end
  end.

(** [AdaptiveKNNMTDecoder.get_normalized_probs] *)
Definition get_normalized_probs (self : decoder) (output : net_output)
    (log_probs : bool) (s : option sample) : result tensor3 :=
  if decide (knn_mode (dec_args self) = "inference"
             ∨ knn_mode (dec_args self) = "train_metak") then
    match combiner self, retriever self with
    | Some c, Some r =>
        match results r, cache_hidden self, source_weight (dec_args self) with
        | Some res, Some hidden, Some w =>
            let knn_prob := get_knn_prob c res hidden w in
            Ok (get_combined_prob c knn_prob output.1 log_probs)
        | None, _, _ => Raise TypeError
        | _, _, _ => Raise AttributeError
        end
    | _, _ => Raise AttributeError
    end
  else Ok (base_get_normalized_probs (base self) output log_probs s).

(** [TransformerDecoder.forward] of fairseq, which the subclass overrides:
    the features, then the output layer unless only features are asked
    for. *)
Definition base_forward (b : Base) (prev_output_tokens : list (list Z))
    (enc : option encoder_out) (fargs : features_args) (features_only : bool)
  : result (tensor3 * extra) :=
  let '(x, extra) := extract_features b prev_output_tokens enc fargs in
  Ok (if features_only then x else output_layer b x, extra).

End AdaptiveKnnMt.
(** ** Reference formulas

  The quantities the specification names, written directly. *)

Module Spec.
Import Torch.

(** Column [t] lies inside [row]. *)
Definition in_range (row : list R) (t : Z) : Prop :=
  (0 ≤ t < Z.of_nat (length row))%Z.

(** Every target id indexes its row of the matrix. *)
Definition indexable (m : list (list R)) (target : list Z) : Prop :=
  Forall2 in_range m target.

(** The entry of [row] at the gold id [t]. *)
Definition at_gold (row : list R) (t : Z) : R :=
  default 0%R (row !! Z.to_nat t).

(** The standard negative log-likelihood: the sum, over the positions whose
    target is not the padding index, of the negated log-probability at the
    gold target id. *)
Fixpoint nll (pad : Z) (lprobs : list (list R)) (target : list Z) : R :=
  match lprobs, target with
  | row :: lprobs, t :: target =>
      ((if decide (t = pad) then 0 else - at_gold row t)
       + nll pad lprobs target)%R
  | _, _ => 0%R
  end.

(** The smoothing term: over the non-padding positions, the negated sum of
    the whole row of log-probabilities. *)
Fixpoint smooth (pad : Z) (lprobs : list (list R)) (target : list Z) : R :=
  match lprobs, target with
  | row :: lprobs, t :: target =>
      ((if decide (t = pad) then 0 else - sum_list row)
       + smooth pad lprobs target)%R
  | _, _ => 0%R
  end.

(** The label-smoothed cross-entropy against the gold targets. *)
Definition label_smoothed (pad : Z) (epsilon : R) (V : nat)
    (lprobs : list (list R)) (target : list Z) : R :=
  ((1 - epsilon) * nll pad lprobs target
   + epsilon / INR V * smooth pad lprobs target)%R.

(** KL divergence of one token: the target distribution [q] against the
    student's log-probabilities [lp]. *)
Definition kl_row (lp q : list R) : R := sum_list (zip_with kl_elem lp q).

(** The padding-masked, summed KL divergence. *)
Fixpoint masked_kl_sum (pad : Z) (lprobs q : list (list R)) (target : list Z)
  : R :=
  match lprobs, q, target with
  | lp :: lprobs, qr :: q, t :: target =>
      ((if decide (t = pad) then 0 else kl_row lp qr)
       + masked_kl_sum pad lprobs q target)%R
  | _, _, _ => 0%R
  end.

(** The mask of one token: 1 when the probability at the gold id meets or
    exceeds every entry of the row, 0 otherwise. *)
Definition gold_mask (row : list R) (t : Z) : R :=
  if decide (Forall (λ y, y <= at_gold row t)%R row) then 1%R else 0%R.

(** The blended distillation target of one token:
    0.5 * mask * kNN_prob + (1 - 0.5 * mask) * teacher_prob. *)
Definition blend_row (mask : R) (knn nmt : list R) : list R :=
  zip_with (λ k n, 0.5 * mask * k + (1 - 0.5 * mask) * n)%R knn nmt.

Fixpoint blend (kNN_prob nmt_prob : list (list R)) (target : list Z)
  : list (list R) :=
  match kNN_prob, nmt_prob, target with
  | knn :: kNN_prob, nmt :: nmt_prob, t :: target =>
      blend_row (gold_mask knn t) knn nmt :: blend kNN_prob nmt_prob target
  | _, _, _ => []
  end.

(** Two matrices have the same shape. *)
Definition same_shape (a b : list (list R)) : Prop :=
  Forall2 (λ x y, length x = length y) a b.

(** [x] is the maximum of [row]. *)
Definition is_row_max (row : list R) (x : R) : Prop :=
  x ∈ row ∧ Forall (λ y, y <= x)%R row.

(** Position (i, j), when it holds a token that is not the padding index. *)
Definition nonpad_at (pad : Z) (target : list (list Z)) (i j : nat)
  : list (nat * nat) :=
  match target !! i ≫= (.!! j) with
  | Some t => if decide (t ≠ pad) then [(i, j)] else []
  | None => []
  end.

(** The positions (i, j) of a target of shape (B, T) that do not hold the
    padding index, in batch order: sentence by sentence, token by token. *)
Definition nonpad_positions (pad : Z) (target : list (list Z))
  : list (nat * nat) :=
  i ← seq 0 (length target);
  j ← seq 0 (RecordTopk.shape1 target);
  nonpad_at pad target i j.


(** Every entry of the tensor is zero. *)
Definition all_zero (t : tensor) : Prop :=
  match t with
  | Scalar x => x = 0%R
  | Vector xs | Column xs => Forall (λ x, x = 0%R) xs
  end.

(** The entries of [data] at the given positions. *)
Definition select {A} (d : A) (data : list (list A))
    (positions : list (nat * nat)) : list A :=
  (λ p, default d (data !! p.1 ≫= (.!! p.2))) <$> positions.

(** The text that writing [lines] one after the other appends. *)
Definition text (lines : list string) : string := foldr String.append "" lines.

(** A target of shape (B, T): every sentence has T tokens. *)
Definition rectangular {A} (t : list (list A)) : Prop :=
  Forall (λ row, length row = RecordTopk.shape1 t) t.



(** One entry of the Jensen-Shannon term: the mean of the two KL entries
    against the logarithm of the midpoint. *)
Definition js_elem (x y : R) : R :=
  ((kl_elem (ln ((x + y) / 2)) x + kl_elem (ln ((x + y) / 2)) y) / 2)%R.

(** Every entry of the matrix satisfies [P]. *)
Definition all_entries (P : R → Prop) (m : list (list R)) : Prop :=
  Forall (Forall P) m.

(** A row of probabilities: no entry is negative and the entries sum to 1. *)
Definition distribution (row : list R) : Prop :=
  Forall (λ x, 0 <= x)%R row ∧ sum_list row = 1%R.

(** The Kullback-Leibler divergence KL(q || p) of one token, written out:
    the sum over the vocabulary of q_j * ln (q_j / p_j), for the target
    probabilities [q] and the student's probabilities [p]. *)
Definition kl_divergence (p q : list R) : R :=
  foldr Rplus 0%R (zip_with (λ pj qj, qj * ln (qj / pj))%R p q).

(** The divergences of the tokens whose target is not the padding index,
    summed. *)
Fixpoint masked_kl_divergence (pad : Z) (P Q : list (list R))
    (target : list Z) : R :=
  match P, Q, target with
  | p :: P, q :: Q, t :: target =>
      ((if decide (t = pad) then 0 else kl_divergence p q)
       + masked_kl_divergence pad P Q target)%R
  | _, _, _ => 0%R
  end.

(** The natural logarithms of the entries of a matrix of probabilities. *)
Definition ln_rows (P : list (list R)) : list (list R) := map (map ln) P.

(** The directory that is to hold [p] is there: [p] is not the root, and the
    text before its last slash, if it has one, is the root or names a
    directory. *)
Definition parent_exists (p : string) (f : Os.fs) : Prop :=
  Os.rstrip_slash p ≠ "" ∧
  match Os.dirname (Os.rstrip_slash p) with
  | None => True
  | Some d => d = "" ∨ d ∈ Os.dirs f
  end.

(** The constant that record_topk_predictions.py adds to its loss: minus the
    entropy of the smoothed target over [V] classes,
    (1 - eps) log(1 - eps) + eps_i log(eps_i) (V - 1), eps_i = eps / (V - 1). *)
Definition smoothing_entropy (epsilon : R) (V : nat) : R :=
  ((1 - epsilon) * ln (1 - epsilon)
   + epsilon / IZR (Z.of_nat V - 1) * ln (epsilon / IZR (Z.of_nat V - 1))
     * IZR (Z.of_nat V - 1))%R.

(** The entries of [xs] at the positions where [mask] holds. *)
Fixpoint select_by {A} (xs : list A) (mask : list bool) : list A :=
  match xs, mask with
  | x :: xs, b :: mask => if b then x :: select_by xs mask else select_by xs mask
  | _, _ => []
  end.

(** The number of positions whose target is not the padding index and is
    the predicted id. *)
Fixpoint correct_count (pad : Z) (preds target : list Z) : nat :=
  match preds, target with
  | p :: preds, t :: target =>
      (if decide (t ≠ pad ∧ p = t) then 1 else 0)
      + correct_count pad preds target
  | _, _ => 0
  end.

(** The number of targets that are not the padding index. *)
Definition nonpad_count (pad : Z) (target : list Z) : nat :=
  length (filter (λ t, t ≠ pad) target).

End Spec.

(** ** A small batch

    One sentence of two tokens over a vocabulary of two; the second token is
    padding. The toy network normalises each row of its output by the row
    sum. Used to run the definitions on concrete values. *)

Module Toy.
Import Torch Fairseq.

Definition normalize (row : list R) : list R :=
  (λ x, x / sum_list row)%R <$> row.

Definition probs_of (log_probs : bool) (x : tensor3) : tensor3 :=
  let p := T3 (vocab x) (map (map normalize) (items x)) in
  if log_probs then t3_map log p else p.

(** A model whose decoder output is [x] for every input. *)
Definition model (x : tensor3) : Model :=
  MkModel true
    (λ _ _, (x, None))
    (λ _ _, ((x, None), x))
    (λ _ _ _, EncoderOut x [])
    (λ _ _ _ _, (x, None))
    (λ out log_probs, probs_of log_probs out.1).

Definition student_out : tensor3 := T3 2 [[[1; 3]; [2; 2]]]%R.
Definition teacher_out : tensor3 := T3 2 [[[1; 1]; [3; 1]]]%R.
Definition knn_out : tensor3 := T3 2 [[[0.25; 0.75]; [0.5; 0.5]]]%R.

Definition pad : Z := 1.

Definition batch : sample :=
  Sample (NetInput [[5; 6]] [2] [[2; 0]])%Z [[0; 1]]%Z 1.

Definition retriever : Adapter.Retriever :=
  Adapter.MkRetriever (λ _, Adapter.Retrieval [] []) None.

(** A combiner with lambda = 1: the combined distribution is the retrieval
    distribution. *)
Definition combiner : Adapter.Combiner :=
  Adapter.MkCombiner (λ _, knn_out) (λ knn_prob _ _, knn_prob).

Definition criterion (strategy : string) (num : nat) : Adapter.criterion :=
  Adapter.Criterion false 0.1%R pad 1%R num (Some (model teacher_out))
    strategy 0%R
    (Adapter.MkRetriever (λ _, Adapter.Retrieval [] [])
       (Some (Adapter.Retrieval [] [])))
    combiner.

(** A stand-in for one row of [torch.topk]: the first [k] indices. Which
    indices torch selects plays no part in what is proved. *)
Definition first_k (k : Z) (row : list R) : result (list Z) :=
  if decide (0 ≤ k ≤ Z.of_nat (length row))%Z
  then Ok (Z.of_nat <$> seq 0 (Z.to_nat k))
  else Raise RuntimeError.

(** A stand-in for [torch.argmax] on one row: the first index. Which index
    torch selects plays no part in what is proved. *)
Definition first_index (row : list R) : result Z :=
  match row with
  | [] => Raise IndexError
  | _ :: _ => Ok 0%Z
  end.

Definition recorder : RecordTopk.criterion :=
  RecordTopk.Criterion false 0.1%R pad "out" 1 0 false.

Definition empty_fs : Os.fs := Os.FS ∅ ∅.

(** A decoder in the mode ["build_datastore"], over a base decoder whose
    features are [student_out] and whose output layer changes nothing. *)
Definition base_decoder : AdaptiveKnnMt.Base :=
  AdaptiveKnnMt.MkBase
    (λ _ _ _, (student_out, Extra None []))
    (λ x, x)
    (λ out log_probs _, probs_of log_probs out.1).

Definition datastore_builder : AdaptiveKnnMt.decoder :=
  AdaptiveKnnMt.Decoder (AdaptiveKnnMt.Args "build_datastore" 8 None)
    base_decoder None None [] 1 None.

(** A decoder in the mode ["inference"]: its retriever finds nothing and
    its combiner answers with the retrieval distribution. *)
Definition inference_decoder : AdaptiveKnnMt.decoder :=
  AdaptiveKnnMt.Decoder (AdaptiveKnnMt.Args "inference" 8 (Some 1%R))
    base_decoder
    (Some (AdaptiveKnnMt.MkRetriever
             (λ _ _ _ _ _, AdaptiveKnnMt.Retrieval [] []) None))
    (Some (AdaptiveKnnMt.MkKnnCombiner
             (λ _ _ _, knn_out) (λ knn_prob _ _, knn_prob)))
    [] 1 None.

Definition no_features_args : AdaptiveKnnMt.features_args :=
  AdaptiveKnnMt.FeaturesArgs None false None None.

(** The parameters of a small model: two of the base network and two of
    the combiner of the decoder, all with their gradient on. *)
Definition parameters : gmap AdaptiveKnnMt.param bool :=
  <[ (["encoder"; "embed_tokens"], "weight") := true ]>
  (<[ (["decoder"; "output_projection"], "weight") := true ]>
  (<[ (["decoder"; "combiner"; "meta_k_network"], "weight") := true ]>
  (<[ (["decoder"; "combiner"; "meta_k_network"], "bias") := true ]> ∅))).

Definition half_combiner : Combiner.combiner :=
  Combiner.MkCombiner 0.5%R 0.001%R normalize.

End Toy.

(** * Properties *)

(** Evaluation of index conversions on concrete ids. *)
Ltac norm_idx :=
repeat match goal with
| |- context [Z.to_nat ?z] =>
    let n := eval vm_compute in (Z.to_nat z) in
    progress change (Z.to_nat z) with n
| |- context [Z.of_nat ?k] =>
    let n := eval vm_compute in (Z.of_nat k) in
    progress change (Z.of_nat k) with n
end.

(** ** Tensor primitives *)

Section torch_facts.
Import Torch.
Context {A B C : Type}.
Implicit Types (f : A → B → C) (xs : list A) (ys : list B).

Lemma zip_exact_Ok f xs ys :
  length xs = length ys → zip_exact f xs ys = Ok (zip_with f xs ys).
Proof.
  revert ys. induction xs as [|x xs IH]; intros [|y ys] Hlen; simplify_eq/=; [done|].
  by rewrite IH.
Qed.

Lemma zip_exact_inv f xs ys zs :
  zip_exact f xs ys = Ok zs → length xs = length ys ∧ zs = zip_with f xs ys.
Proof.
  revert ys zs. induction xs as [|x xs IH]; intros [|y ys] zs Hz; simplify_eq/=; [done|].
  destruct (zip_exact f xs ys) as [zs'|] eqn:E; simplify_eq/=.
  destruct (IH _ _ E) as [-> ->]. done.
Qed.

End torch_facts.

Section gather_facts.
Import Torch Spec.

Lemma index_row_in_range row t :
  in_range row t → index_row row t = Ok (at_gold row t).
Proof.
  intros [H0 Hlt]. unfold index_row, at_gold.
  rewrite decide_True by done.
  destruct (lookup_lt_is_Some_2 row (Z.to_nat t)) as [v ->]; [lia|done].
Qed.

Lemma index_row_inv row t v :
  index_row row t = Ok v → in_range row t ∧ v = at_gold row t.
Proof.
  unfold index_row, at_gold, in_range. intros H.
  destruct (decide (0 ≤ t)%Z); [|done].
  destruct (row !! Z.to_nat t) as [x|] eqn:E; simplify_eq/=.
  apply lookup_lt_Some in E. split; [lia|done].
Qed.

Lemma gather_indexable m target :
  indexable m target → gather m target = Ok (zip_with at_gold m target).
Proof.
  induction 1 as [|row t m target Hr _ IH]; simpl; [done|].
  by rewrite index_row_in_range, IH.
Qed.

Lemma gather_inv m target g :
  gather m target = Ok g → indexable m target ∧ g = zip_with at_gold m target.
Proof.
  revert target g. induction m as [|row m IH]; intros [|t target] g H; simplify_eq/=.
  - split; [constructor|done].
  - destruct (index_row row t) as [v|] eqn:Ev; simplify_eq/=.
    destruct (gather m target) as [vs|] eqn:Eg; simplify_eq/=.
    apply index_row_inv in Ev as [Hr ->]. destruct (IH _ _ Eg) as [Hi ->].
    split; [by constructor|done].
Qed.

Lemma length_eq_mask target idx : length (eq_mask target idx) = length target.
Proof. unfold eq_mask. by rewrite length_fmap. Qed.

(** Filling the padding rows of the negated gold entries with zero and
    summing is the standard NLL. *)
Lemma masked_gold_sum pad m target :
  indexable m target →
  sum_list (zip_with (λ x (b : bool), if b then 0%R else x)
              (Ropp <$> zip_with at_gold m target) (eq_mask target pad))
  = nll pad m target.
Proof.
  induction 1 as [|row t m target _ _ IH]; [done|].
  cbn [nll]. rewrite <- IH. cbn. by case_bool_decide; case_decide.
Qed.

End gather_facts.

(** ** Label smoothing at epsilon = 0 *)

Section label_smoothing.
Import Torch Spec.

Lemma masked_fill_Ok xs mask v :
  length xs = length mask →
  masked_fill xs mask v
  = Ok (zip_with (λ x (b : bool), if b then v else x) xs mask).
Proof. apply zip_exact_Ok. Qed.

(** The implementation of label_smoothed_cross_entropy-step2.py: with
    epsilon = 0 the loss is the standard NLL (and so is the second
    component), for every index-able target and a vocabulary that is
    not empty. *)
Lemma adapter_eps0_is_nll lprobs target pad :
  indexable (rows lprobs) target →
  ncols lprobs ≠ 0 →
  Adapter.label_smoothed_nll_loss lprobs target 0 (Some pad) true
  = Ok (Scalar (nll pad (rows lprobs) target),
        Scalar (nll pad (rows lprobs) target)).
Proof.
  intros Hidx HV. unfold Adapter.label_smoothed_nll_loss.
  rewrite (gather_indexable _ _ Hidx). cbn [mbind result_bind].
  pose proof (Forall2_length _ _ _ Hidx) as Hlen.
  rewrite !masked_fill_Ok
    by (rewrite length_eq_mask, ?length_fmap, ?length_zip_with; lia).
  cbn [mbind result_bind]. rewrite (masked_gold_sum _ _ _ Hidx).
  unfold Py.div. rewrite decide_False by lia. cbn.
  do 2 f_equal. f_equal. unfold Rdiv. lra.
Qed.

(** The first implementation does return on a concrete batch: two
    positions, the second one padding. *)
Lemma adapter_eps0_is_nll_example :
  Adapter.label_smoothed_nll_loss
    (Mat 2 [[-1; -2]; [-3; -4]]%R) [1; 0]%Z 0 (Some 0%Z) true
  = Ok (Scalar 2, Scalar 2).
Proof.
  rewrite adapter_eps0_is_nll.
  - cbn. repeat case_decide; try done. unfold at_gold. norm_idx. cbn.
    do 2 f_equal; f_equal; lra.
  - repeat constructor; cbn; lia.
  - done.
Defined.

Lemma py_log_pos x : (0 < x)%R → Py.log x = Ok (ln x).
Proof. intros. unfold Py.log. by rewrite decide_True. Qed.

Lemma py_log_nonpos x : (x <= 0)%R → Py.log x = Raise ValueError.
Proof. intros. unfold Py.log. rewrite decide_False; [done|lra]. Qed.

Lemma py_div_nonzero x n : n ≠ 0%Z → Py.div x n = Ok (x / IZR n)%R.
Proof. intros. unfold Py.div. by rewrite decide_False. Qed.

(** C1 (the implementation of record_topk_predictions.py). With
    epsilon = 0 the function returns no loss at all, whatever the
    log-probabilities, the targets, the padding index and [reduce] are: it
    raises, at the latest when [math.log(eps_i)] is evaluated at
    [eps_i = 0]. The reduction to the standard NLL, which the other
    implementation has ([adapter_eps0_is_nll]), is lost here. *)
Theorem record_topk_eps0_raises lprobs target ignore_index reduce :
  ∃ e, RecordTopk.label_smoothed_nll_loss lprobs target 0 ignore_index reduce
       = Raise e.
Proof.
  unfold RecordTopk.label_smoothed_nll_loss.
  destruct (gather _ _) as [g|e]; [|by eexists]. cbn [mbind result_bind].
  destruct ignore_index as [idx|]; cbn [mbind result_bind].
  - destruct (masked_fill (Ropp <$> g) _ _) as [n|e]; [|by eexists].
    cbn [mbind result_bind].
    destruct (masked_fill _ _ _) as [sm|e]; [|by eexists].
    cbn [mbind result_bind]. unfold Py.div.
    case_decide; [by eexists|]. cbn [mbind result_bind].
    destruct (tadd _ _) as [l|e]; [|by eexists]. cbn [mbind result_bind].
    rewrite (py_log_pos (1 - 0)) by lra. cbn [mbind result_bind].
    rewrite py_log_nonpos by (unfold Rdiv; lra). by eexists.
  - unfold Py.div.
    case_decide; [by eexists|]. cbn [mbind result_bind].
    destruct (tadd _ _) as [l|e]; [|by eexists]. cbn [mbind result_bind].
    rewrite (py_log_pos (1 - 0)) by lra. cbn [mbind result_bind].
    rewrite py_log_nonpos by (unfold Rdiv; lra). by eexists.
Qed.

(** The same on one batch of one position over two classes: [ValueError]. *)
Lemma record_topk_eps0_example :
  RecordTopk.label_smoothed_nll_loss (Mat 2 [[-1; -2]]%R) [0]%Z 0
    (Some 1%Z) true
  = Raise ValueError.
Proof.
  unfold RecordTopk.label_smoothed_nll_loss. cbn.
  rewrite py_div_nonzero by done. cbn.
  rewrite (py_log_pos (1 - 0)) by lra. cbn.
  by rewrite py_log_nonpos by (unfold Rdiv; lra).
Qed.

End label_smoothing.

(** ** The mask of the adapter_direct strategy *)

Section adapter_mask.
Import Torch Spec Adapter.

Lemma foldl_Rmax_spec xs x :
  is_row_max (x :: xs) (foldl Rmax x xs).
Proof.
  revert x. induction xs as [|y xs IH]; intros x; cbn [foldl].
  - split; [left|]. apply Forall_cons. split; [lra|constructor].
  - destruct (IH (Rmax x y)) as [Hin Hall].
    apply Forall_cons in Hall as [Hxy Hall]. split.
    + apply elem_of_cons in Hin as [->|Hin].
      * unfold Rmax. destruct (Rle_dec x y); [right; left|left].
      * by do 2 right.
    + pose proof (Rmax_l x y). pose proof (Rmax_r x y).
      apply Forall_cons. split; [lra|]. apply Forall_cons. split; [lra|done].
Qed.

Lemma row_max_spec row t :
  in_range row t → ∃ mx, row_max row = Ok mx ∧ is_row_max row mx.
Proof.
  intros [? Hlt]. destruct row as [|x xs]; [cbn in Hlt; lia|].
  eexists; split; [done|]. apply foldl_Rmax_spec.
Qed.





End adapter_mask.

(** ** The summed loss terms *)

Section loss_terms.
Import Torch Spec Adapter.

Lemma masked_smooth_sum pad m target :
  length m = length target →
  sum_list (zip_with (λ x (b : bool), if b then 0%R else x)
              ((λ row, - sum_list row)%R <$> m) (eq_mask target pad))
  = smooth pad m target.
Proof.
  revert target. induction m as [|row m IH]; intros [|t target] Hlen;
    simplify_eq/=; [done|].
  rewrite <- (IH target) by done. cbn. by case_bool_decide; case_decide.
Qed.

Lemma tadd_same_shape a b (k : list R → tensor) xs ys :
  (k = Column ∨ k = Vector) → length xs = length ys →
  tadd (tscale a (k xs)) (tscale b (k ys))
  = Ok (k (zip_with Rplus (Rmult a <$> xs) (Rmult b <$> ys))).
Proof.
  intros [-> | ->] Hlen; cbn;
    rewrite zip_exact_Ok by (by rewrite !length_fmap); done.
Qed.

(** [label_smoothed_nll_loss] returns for every epsilon and both values of
    [reduce]; with [reduce] the two components are the label-smoothed
    cross-entropy and the NLL of the reference formulas. *)
Lemma adapter_label_smoothed_Ok lprobs target epsilon pad reduce :
  indexable (rows lprobs) target →
  ncols lprobs ≠ 0 →
  ∃ golden nll_loss,
    label_smoothed_nll_loss lprobs target epsilon (Some pad) reduce
    = Ok (golden, nll_loss) ∧
    (reduce = true →
       golden = Scalar (label_smoothed pad epsilon (ncols lprobs)
                          (rows lprobs) target) ∧
       nll_loss = Scalar (nll pad (rows lprobs) target)).
Proof.
  intros Hidx HV. unfold label_smoothed_nll_loss.
  rewrite (gather_indexable _ _ Hidx). cbn [mbind result_bind].
  pose proof (Forall2_length _ _ _ Hidx) as Hlen.
  rewrite !masked_fill_Ok
    by (rewrite length_eq_mask, ?length_fmap, ?length_zip_with; lia).
  cbn [mbind result_bind].
  rewrite py_div_nonzero by lia. cbn [mbind result_bind].
  destruct reduce.
  - cbn. do 2 eexists. split; [done|]. intros _.
    rewrite (masked_gold_sum _ _ _ Hidx), (masked_smooth_sum _ _ _ Hlen).
    unfold label_smoothed. by rewrite INR_IZR_INZ.
  - rewrite (tadd_same_shape _ _ Column) by
      (eauto; rewrite !length_zip_with, !length_fmap, length_zip_with,
         length_eq_mask; lia).
    cbn. do 2 eexists. split; [done|]. done.
Qed.

Lemma kl_rows_Ok lp q :
  same_shape lp q → kl_rows lp q = Ok (zip_with kl_row lp q).
Proof.
  induction 1 as [|x y lp q Hxy _ IH]; [done|].
  cbn [kl_rows]. rewrite (zip_exact_Ok _ _ _ Hxy), IH. done.
Qed.

Lemma masked_kl_Ok pad lp q target :
  same_shape lp q → length lp = length target →
  masked_kl lp q (eq_mask target pad) = Ok (masked_kl_sum pad lp q target).
Proof.
  intros Hs Hlen. unfold masked_kl. rewrite (kl_rows_Ok _ _ Hs).
  cbn [mbind result_bind].
  rewrite masked_fill_Ok.
  2:{ rewrite length_eq_mask, length_zip_with.
      apply Forall2_length in Hs. lia. }
  cbn [mbind result_bind]. f_equal.
  revert target Hlen. induction Hs as [|x y lp q _ _ IH]; intros [|t target] Hlen;
    simplify_eq/=; [done|].
  rewrite <- (IH target) by done. cbn. by case_bool_decide; case_decide.
Qed.

End loss_terms.

(** ** The student's log-probabilities and the KL divergence *)

(** Entry-wise facts on concrete real matrices. *)
Ltac solve_entries :=
  unfold Spec.all_entries;
  repeat first [apply Forall_nil_2 | apply Forall_cons; split | lra].

Section student_log_probs.
Import Torch Fairseq Spec Adapter.

(** [lprobs] of [compute_loss] holds the natural logarithms of [probs]. *)
Lemma student_lprobs_ln model output :
  student_lprobs model output
  = Mat (ncols (student_probs model output))
      (ln_rows (rows (student_probs model output))).
Proof.
  unfold student_lprobs, student_probs, view2, t3_map, ln_rows. cbn. f_equal.
  induction (items _) as [|x xs IH]; [done|].
  cbn. by rewrite map_app, IH.
Qed.

Lemma indexable_ln_rows P target :
  indexable P target → indexable (ln_rows P) target.
Proof.
  induction 1 as [|row t P target Hr _ IH]; constructor; [|done].
  unfold in_range in *. by rewrite length_map.
Qed.

Lemma same_shape_ln_rows P Q : same_shape P Q → same_shape (ln_rows P) Q.
Proof.
  induction 1 as [|p q P Q Hpq _ IH]; constructor; [|done].
  by rewrite length_map.
Qed.

(** For positive [a] and [b]: ln (b / a) = ln b - ln a. *)
Lemma ln_quotient a b : (0 < a)%R → (0 < b)%R → ln (b / a) = (ln b - ln a)%R.
Proof.
  intros Ha Hb. unfold Rdiv. rewrite ln_mult, ln_Rinv; try lra.
  by apply Rinv_0_lt_compat.
Qed.

(** One entry of [F.kl_div], on the logarithm of a positive probability and
    a target probability, is the entry of the divergence. *)
Lemma kl_elem_divergence p q :
  (0 < p)%R → (0 <= q)%R → kl_elem (ln p) q = (q * ln (q / p))%R.
Proof.
  intros Hp Hq. unfold kl_elem, xlogy. case_decide as Hq0.
  - subst q. lra.
  - rewrite ln_quotient by lra. lra.
Qed.

Lemma kl_row_divergence (p q : list R) :
  length p = length q →
  Forall (λ x, 0 < x)%R p → Forall (λ x, 0 <= x)%R q →
  kl_row (map ln p) q = kl_divergence p q.
Proof.
  intros Hlen Hp. revert q Hlen. unfold kl_row, kl_divergence, sum_list.
  induction Hp as [|x p Hx _ IH]; intros [|y q] Hlen Hq; simplify_eq/=;
    [done|].
  apply Forall_cons in Hq as [Hy Hq].
  by rewrite IH, kl_elem_divergence.
Qed.

(** On positive student probabilities and target probabilities that are not
    negative, the masked sum of [F.kl_div] over the student's
    log-probabilities is the masked KL divergence. *)
Lemma masked_kl_sum_divergence pad P Q target :
  same_shape P Q →
  all_entries (λ x, 0 < x)%R P → all_entries (λ x, 0 <= x)%R Q →
  masked_kl_sum pad (ln_rows P) Q target = masked_kl_divergence pad P Q target.
Proof.
  intros Hs. revert target. unfold all_entries.
  induction Hs as [|p q P Q Hpq _ IH]; intros target HP HQ; [done|].
  destruct target as [|t target]; [done|].
  apply Forall_cons in HP as [Hp HP]. apply Forall_cons in HQ as [Hq HQ].
  cbn [ln_rows map masked_kl_sum masked_kl_divergence].
  change (map (map ln) P) with (ln_rows P).
  by rewrite IH, kl_row_divergence.
Qed.

Lemma toy_student_probs :
  rows (student_probs (Toy.model Toy.student_out) (Toy.student_out, None))
  = [[1 / (1 + (3 + 0)); 3 / (1 + (3 + 0))];
     [2 / (2 + (2 + 0)); 2 / (2 + (2 + 0))]]%R.
Proof. reflexivity. Qed.

Lemma toy_teacher_probs :
  rows (view2 (Toy.probs_of false Toy.teacher_out))
  = [[1 / (1 + (1 + 0)); 1 / (1 + (1 + 0))];
     [3 / (3 + (1 + 0)); 1 / (3 + (1 + 0))]]%R.
Proof. reflexivity. Qed.

End student_log_probs.

(** ** The direct strategy *)

Section direct_strategy.
Import Torch Fairseq Spec Adapter.

Lemma teacher_pass_direct self s w tm :
  teacher_model self = Some tm →
  distil_strategy self ≠ "normal" →
  ∃ self',
    teacher_pass self s w
    = (Some (forwards tm (training tm) (net_in s)).1, self',
       World (grad_enabled w) (calls w ++ [TeacherForwards false; Retrieve false])).
Proof.
  intros Htm Hs. unfold teacher_pass. rewrite Htm, decide_True by done.
  unfold no_grad. destruct (forwards tm (training tm) (net_in s)) as [t_out query].
  cbn. rewrite <- app_assoc. by eexists.
Qed.

(** C3. With the strategy ['direct'] and a teacher output, [compute_loss]
    returns as loss the padding-masked, summed KL divergence of the
    teacher's probabilities from the student's, the sum over the vocabulary
    of q_j * ln (q_j / p_j), whatever the label-smoothing epsilon and
    [reduce] are: the gold cross-entropy is computed (it is the second
    hypothesis that lets it return) and is not part of the loss. The
    student's probabilities are positive and the teacher's are not
    negative, as those of a softmax are. In [forward] the teacher's pass and
    the retrieval on its query are called with gradient tracking off, and
    the switch is restored afterwards. *)
Theorem direct_loss_is_teacher_kl self model output s reduce teacher_output q :
  get_teacher_probs_direct self teacher_output = Ok q →
  ncols (student_probs model output) ≠ 0 →
  indexable (rows (student_probs model output)) (flat_target s output) →
  same_shape (rows (student_probs model output)) (rows q) →
  all_entries (λ x, 0 < x)%R (rows (student_probs model output)) →
  all_entries (λ x, 0 <= x)%R (rows q) →
  (∃ nll_loss,
     compute_loss self model output s reduce (Some teacher_output) "direct"
     = Ok (Some (Scalar (masked_kl_divergence (padding_idx self)
                           (rows (student_probs model output)) (rows q)
                           (flat_target s output))),
           Some nll_loss,
           {[ "KD_loss" :=
                Scalar (masked_kl_divergence (padding_idx self)
                          (rows (student_probs model output)) (rows q)
                          (flat_target s output)) ]})) ∧
  (distil_strategy self = "direct" →
   ∀ checkpoint w,
     calls (forward self checkpoint model s reduce w).1.2
     = calls w ++ [StudentForward (grad_enabled w);
                   TeacherForwards false; Retrieve false] ∧
     grad_enabled (forward self checkpoint model s reduce w).1.2
     = grad_enabled w).
Proof.
  intros Hq HV Hidx Hshape Hpos Hnn. split.
  - unfold compute_loss. rewrite decide_False, decide_True by done.
    rewrite student_lprobs_ln.
    destruct (adapter_label_smoothed_Ok
                (Mat (ncols (student_probs model output))
                   (ln_rows (rows (student_probs model output))))
                (flat_target s output) (eps self) (padding_idx self) reduce
                (indexable_ln_rows _ _ Hidx) HV)
      as (golden & nll_loss & -> & _).
    cbn [mbind result_bind rows]. rewrite Hq. cbn [mbind result_bind].
    rewrite masked_kl_Ok;
      [|by apply same_shape_ln_rows
       |unfold ln_rows; rewrite length_map; by apply Forall2_length in Hidx].
    rewrite masked_kl_sum_divergence by done. by eexists.
  - intros Hs checkpoint w. unfold forward.
    set (self1 := set_num _ _).
    assert (∃ tm, teacher_model self1 = Some tm) as [tm Htm].
    { subst self1. unfold get_teacher_probs_direct in Hq.
      case_decide; cbn; [by eexists|].
      destruct (teacher_model self); [by eexists|done]. }
    assert (distil_strategy self1 ≠ "normal") as Hne.
    { subst self1. case_decide; cbn; by rewrite Hs. }
    destruct (teacher_pass_direct self1 s (emit StudentForward w) tm Htm Hne)
      as [self' ->].
    cbn. by rewrite <- app_assoc.
Qed.

Lemma direct_loss_is_teacher_kl_witness :
  (∃ nll_loss,
     compute_loss (Toy.criterion "direct" 1) (Toy.model Toy.student_out)
       (Toy.student_out, None) Toy.batch true (Some (Toy.teacher_out, None))
       "direct"
     = Ok (Some (Scalar (masked_kl_divergence Toy.pad
                           (rows (student_probs (Toy.model Toy.student_out)
                                    (Toy.student_out, None)))
                           (rows (view2 (Toy.probs_of false Toy.teacher_out)))
                           [0; 1]%Z)),
           Some nll_loss,
           {[ "KD_loss" :=
                Scalar (masked_kl_divergence Toy.pad
                          (rows (student_probs (Toy.model Toy.student_out)
                                   (Toy.student_out, None)))
                          (rows (view2 (Toy.probs_of false Toy.teacher_out)))
                          [0; 1]%Z) ]})) ∧
  calls (forward (Toy.criterion "direct" 1) (Toy.model Toy.teacher_out)
           (Toy.model Toy.student_out) Toy.batch true (World true [])).1.2
  = [StudentForward true; TeacherForwards false; Retrieve false].
Proof.
  destruct (direct_loss_is_teacher_kl (Toy.criterion "direct" 1)
              (Toy.model Toy.student_out) (Toy.student_out, None) Toy.batch true
              (Toy.teacher_out, None)
              (view2 (Toy.probs_of false Toy.teacher_out))) as [Hloss Hfwd].
  - reflexivity.
  - cbn. lia.
  - repeat constructor; cbn; lia.
  - repeat constructor.
  - rewrite toy_student_probs. solve_entries.
  - rewrite toy_teacher_probs. solve_entries.
  - split; [exact Hloss|].
    exact (proj1 (Hfwd eq_refl (Toy.model Toy.teacher_out) (World true []))).
Defined.

End direct_strategy.

(** ** The adapter_direct strategy *)

Section adapter_direct_strategy.
Import Torch Fairseq Spec Adapter.

Lemma indexable_same_shape a b target :
  indexable a target → same_shape a b → indexable b target.
Proof.
  intros Hidx. revert b. induction Hidx as [|row t a target Hr _ IH];
    intros b Hs; inversion Hs as [|? row' ? b' Hlen Hs']; subst; constructor.
  - unfold in_range in *. lia.
  - by apply IH.
Qed.

Lemma gold_mask_row_max row t mx :
  is_row_max row mx →
  (if decide (mx <= at_gold row t)%R then 1%R else 0%R) = gold_mask row t.
Proof.
  intros [Hin Hall]. unfold gold_mask. rewrite Forall_forall in Hall.
  destruct (decide (mx <= at_gold row t)%R) as [Hle|Hnle].
  - rewrite decide_True; [done|]. apply Forall_forall. intros y Hy.
    apply Hall in Hy. lra.
  - rewrite decide_False; [done|]. rewrite Forall_forall. intros Hall'.
    apply Hnle. by apply Hall'.
Qed.

Lemma adapter_direct_mask_Ok kNN_prob target :
  indexable kNN_prob target →
  adapter_direct_mask kNN_prob target = Ok (zip_with gold_mask kNN_prob target).
Proof.
  unfold adapter_direct_mask. intros Hidx.
  rewrite (gather_indexable _ _ Hidx). cbn [mbind result_bind].
  induction Hidx as [|row t m target Hr Hidx IH]; [done|].
  destruct (row_max_spec _ _ Hr) as (mx & Hmx & Hismax).
  cbn [row_maxes mbind result_bind]. rewrite Hmx.
  destruct (row_maxes m) as [mxs|e]; [|done].
  cbn [mbind result_bind zip_with] in *. unfold ge_mask in *.
  cbn [zip_exact]. rewrite IH. cbn [mbind result_bind].
  by rewrite (gold_mask_row_max _ _ _ Hismax).
Qed.

Lemma mat_add_Ok a b :
  same_shape a b → mat_add a b = Ok (zip_with (zip_with Rplus) a b).
Proof.
  induction 1 as [|x y a b Hxy _ IH]; [done|].
  cbn [mat_add]. by rewrite (zip_exact_Ok _ _ _ Hxy), IH.
Qed.

Lemma blend_row_sum mk (knn nmt : list R) :
  zip_with Rplus ((λ x, 0.5 * x * mk)%R <$> knn)
    ((λ x, x * (1 - 0.5 * mk))%R <$> nmt)
  = blend_row mk knn nmt.
Proof.
  unfold blend_row. revert nmt. induction knn as [|k knn IH]; intros [|n nmt];
    cbn; [done..|].
  rewrite IH. f_equal. lra.
Qed.

(** The three tensor operations that build [distil_lprobs] give the blended
    target of the reference formula. *)
Lemma blend_rows_sum (kNN_prob nmt_prob : list (list R)) target :
  length kNN_prob = length target → length nmt_prob = length target →
  zip_with (zip_with Rplus)
    (zip_with (λ row mk, (λ x, 0.5 * x * mk)%R <$> row) kNN_prob
       (zip_with gold_mask kNN_prob target))
    (zip_with (λ row mk, (λ x, x * (1 - 0.5 * mk))%R <$> row) nmt_prob
       (zip_with gold_mask kNN_prob target))
  = blend kNN_prob nmt_prob target.
Proof.
  revert nmt_prob target.
  induction kNN_prob as [|knn kNN_prob IH]; intros [|nmt nmt_prob] [|t target] ??;
    simplify_eq/=; [done|].
  by rewrite blend_row_sum, IH.
Qed.

Lemma same_shape_blend lp kNN_prob nmt_prob target :
  same_shape lp kNN_prob → same_shape lp nmt_prob → length lp = length target →
  same_shape lp (blend kNN_prob nmt_prob target).
Proof.
  intros Hk. revert nmt_prob target.
  induction Hk as [|x knn lp kNN_prob Hlen _ IH]; intros nmt_prob target Hn Ht;
    inversion Hn as [|? nmt ? nmt_prob' Hlen' Hn']; subst;
    destruct target as [|t target]; simplify_eq/=; constructor.
  - unfold blend_row. rewrite length_zip_with. lia.
  - by apply IH.
Qed.

Lemma same_shape_common lp a b :
  same_shape lp a → same_shape lp b → same_shape a b.
Proof.
  intros Ha. revert b. induction Ha as [|x y lp a Hxy _ IH]; intros b Hb;
    inversion Hb as [|? z ? b' Hxz Hb']; subst; constructor.
  - congruence.
  - by apply IH.
Qed.

Lemma same_shape_scaled (f g : R → R → R) a b (c : list R) :
  same_shape a b →
  same_shape (zip_with (λ row mk, (λ x, f x mk) <$> row) a c)
    (zip_with (λ row mk, (λ x, g x mk) <$> row) b c).
Proof.
  intros Hab. revert c. induction Hab as [|x y a b Hxy _ IH]; intros [|mk c];
    cbn; constructor.
  - by rewrite !length_fmap.
  - apply IH.
Qed.

Lemma same_shape_length a b : same_shape a b → length a = length b.
Proof. apply Forall2_length. Qed.

Lemma blend_nonneg kNN_prob nmt_prob target :
  all_entries (λ x, 0 <= x)%R kNN_prob →
  all_entries (λ x, 0 <= x)%R nmt_prob →
  all_entries (λ x, 0 <= x)%R (blend kNN_prob nmt_prob target).
Proof.
  unfold all_entries. intros Hk. revert nmt_prob target.
  induction Hk as [|knn kNN_prob Hknn _ IH]; intros nmt_prob target Hn;
    [constructor|].
  destruct Hn as [|nmt nmt_prob Hnmt Hn]; [constructor|].
  destruct target as [|t target]; [constructor|].
  cbn [blend]. constructor; [|by apply IH].
  assert (gold_mask knn t = 0 ∨ gold_mask knn t = 1)%R as Hmask
    by (unfold gold_mask; case_decide; auto).
  unfold blend_row. generalize dependent (gold_mask knn t). intros mk Hmask.
  clear -Hknn Hnmt Hmask. revert nmt Hnmt.
  induction Hknn as [|k knn Hk _ IHk]; intros nmt Hnmt; [constructor|].
  destruct Hnmt as [|n nmt Hn0 Hnmt]; [constructor|].
  cbn [zip_with]. apply Forall_cons. split; [|by apply IHk].
  destruct Hmask as [-> | ->]; lra.
Qed.

(** C4. With the strategy ['adapter_direct'] the loss is the gold
    label-smoothed cross-entropy plus 2.0 times the padding-masked, summed KL
    divergence (the sum over the vocabulary of q_j * ln (q_j / p_j)) of the
    blended target 0.5 * mask * kNN_prob + (1 - 0.5 * mask) * teacher_prob
    from the student's probabilities. The student's probabilities are
    positive and those of the teacher and of the retrieval are not
    negative. *)
Theorem adapter_direct_loss self model output s reduce teacher_output
    nmt_prob kNN_prob :
  get_teacher_probs_direct self teacher_output = Ok nmt_prob →
  get_teacher_probs self teacher_output = Ok kNN_prob →
  ncols (student_probs model output) ≠ 0 →
  indexable (rows (student_probs model output)) (flat_target s output) →
  same_shape (rows (student_probs model output)) (rows nmt_prob) →
  same_shape (rows (student_probs model output)) (rows kNN_prob) →
  all_entries (λ x, 0 < x)%R (rows (student_probs model output)) →
  all_entries (λ x, 0 <= x)%R (rows nmt_prob) →
  all_entries (λ x, 0 <= x)%R (rows kNN_prob) →
  ∃ golden nll_loss,
    label_smoothed_nll_loss
      (Mat (ncols (student_probs model output))
         (ln_rows (rows (student_probs model output))))
      (flat_target s output) (eps self) (Some (padding_idx self)) reduce
    = Ok (golden, nll_loss) ∧
    compute_loss self model output s reduce (Some teacher_output)
      "adapter_direct"
    = Ok (Some (tadd_scalar golden
                  (2 * masked_kl_divergence (padding_idx self)
                         (rows (student_probs model output))
                         (blend (rows kNN_prob) (rows nmt_prob)
                            (flat_target s output))
                         (flat_target s output))),
          Some nll_loss,
          {[ "KD_loss" :=
               Scalar (masked_kl_divergence (padding_idx self)
                         (rows (student_probs model output))
                         (blend (rows kNN_prob) (rows nmt_prob)
                            (flat_target s output))
                         (flat_target s output)) ]}) ∧
    (reduce = true →
     tadd_scalar golden
       (2 * masked_kl_divergence (padding_idx self)
              (rows (student_probs model output))
              (blend (rows kNN_prob) (rows nmt_prob) (flat_target s output))
              (flat_target s output))
     = Scalar
         (label_smoothed (padding_idx self) (eps self)
            (ncols (student_probs model output))
            (ln_rows (rows (student_probs model output)))
            (flat_target s output)
          + 2 * masked_kl_divergence (padding_idx self)
                  (rows (student_probs model output))
                  (blend (rows kNN_prob) (rows nmt_prob) (flat_target s output))
                  (flat_target s output))).
Proof.
  intros Hn Hk HV Hidx Hsn Hsk Hpos Hnn Hkn.
  pose proof (Forall2_length _ _ _ Hidx) as Hlen.
  pose proof (same_shape_length _ _ Hsn) as Hlenn.
  pose proof (same_shape_length _ _ Hsk) as Hlenk.
  destruct (adapter_label_smoothed_Ok
              (Mat (ncols (student_probs model output))
                 (ln_rows (rows (student_probs model output))))
              (flat_target s output) (eps self) (padding_idx self) reduce
              (indexable_ln_rows _ _ Hidx) HV)
    as (golden & nll_loss & Hls & Hred).
  exists golden, nll_loss. split; [done|]. split.
  - unfold compute_loss.
    rewrite decide_False, decide_False, decide_True by done.
    rewrite student_lprobs_ln, Hls. cbn [mbind result_bind rows].
    rewrite Hn, Hk. cbn [mbind result_bind].
    rewrite adapter_direct_mask_Ok
      by apply (indexable_same_shape _ _ _ Hidx Hsk).
    cbn [mbind result_bind]. unfold scale_rows.
    rewrite !zip_exact_Ok by (rewrite length_zip_with; lia).
    cbn [mbind result_bind].
    rewrite mat_add_Ok
      by (apply same_shape_scaled; by eapply same_shape_common).
    cbn [mbind result_bind]. rewrite blend_rows_sum by lia.
    rewrite masked_kl_Ok;
      [|by apply same_shape_ln_rows, same_shape_blend
       |unfold ln_rows; rewrite length_map; lia].
    rewrite masked_kl_sum_divergence;
      [|by apply same_shape_blend|done|by apply blend_nonneg].
    cbn [mbind result_bind]. by replace 2.0%R with 2%R by lra.
  - intros Hr. destruct (Hred Hr) as [-> _]. done.
Qed.

(** C4 on the toy batch. *)
Lemma adapter_direct_loss_witness :
  ∃ golden nll_loss,
    compute_loss (Toy.criterion "adapter_direct" 1) (Toy.model Toy.student_out)
      (Toy.student_out, None) Toy.batch true (Some (Toy.teacher_out, None))
      "adapter_direct"
    = Ok (Some (tadd_scalar golden
                  (2 * masked_kl_divergence Toy.pad
                         (rows (student_probs (Toy.model Toy.student_out)
                                  (Toy.student_out, None)))
                         (blend (rows (view2 Toy.knn_out))
                            (rows (view2 (Toy.probs_of false Toy.teacher_out)))
                            [0; 1]%Z)
                         [0; 1]%Z)),
          Some nll_loss,
          {[ "KD_loss" :=
               Scalar (masked_kl_divergence Toy.pad
                         (rows (student_probs (Toy.model Toy.student_out)
                                  (Toy.student_out, None)))
                         (blend (rows (view2 Toy.knn_out))
                            (rows (view2 (Toy.probs_of false Toy.teacher_out)))
                            [0; 1]%Z)
                         [0; 1]%Z) ]}).
Proof.
  destruct (adapter_direct_loss (Toy.criterion "adapter_direct" 1)
              (Toy.model Toy.student_out) (Toy.student_out, None) Toy.batch true
              (Toy.teacher_out, None)
              (view2 (Toy.probs_of false Toy.teacher_out))
              (view2 Toy.knn_out))
    as (golden & nll_loss & _ & Hloss & _).
  - reflexivity.
  - reflexivity.
  - cbn. lia.
  - repeat constructor; cbn; lia.
  - repeat constructor.
  - repeat constructor.
  - rewrite toy_student_probs. solve_entries.
  - rewrite toy_teacher_probs. solve_entries.
  - change (rows (view2 Toy.knn_out)) with [[0.25; 0.75]; [0.5; 0.5]]%R.
    solve_entries.
  - exists golden, nll_loss. exact Hloss.
Defined.

End adapter_direct_strategy.

(** ** Padding positions *)

Section padding.
Import Torch Fairseq Spec Adapter.









Lemma zip_exact_Raise {A B C} (f : A → B → C) xs ys e :
  zip_exact f xs ys = Raise e → e = RuntimeError.
Proof.
  revert ys. induction xs as [|x xs IH]; intros [|y ys] H; simplify_eq/=;
    try done.
  destruct (zip_exact f xs ys) eqn:E; simplify_eq/=. by eapply IH.
Qed.

Lemma gather_Raise m target e : gather m target = Raise e → e = RuntimeError.
Proof.
  revert target. induction m as [|row m IH]; intros [|t target] H;
    simplify_eq/=; try done.
  destruct (index_row row t) eqn:Ei; simplify_eq/=.
  - destruct (gather m target) eqn:Eg; simplify_eq/=. by eapply IH.
  - unfold index_row in Ei. repeat case_match; by simplify_eq.
Qed.







End padding.

Section padding_invariance.
Import Torch Fairseq Spec Adapter.





End padding_invariance.

(** ** The dump of the top-k predictions *)

Section dump.
Import Torch Fairseq Spec RecordTopk.

Lemma string_app_assoc (a b c : string) : (a +:+ b) +:+ c = a +:+ (b +:+ c).
Proof.
  induction a as [|x a IH]; [done|].
  change (String x ((a +:+ b) +:+ c) = String x (a +:+ b +:+ c)). by rewrite IH.
Qed.

Lemma string_app_nil (a : string) : a +:+ "" = a.
Proof.
  induction a as [|x a IH]; [done|].
  change (String x (a +:+ "") = String x a). by rewrite IH.
Qed.

Lemma for_each_appends {A} (xs : list A) (body : A → Os.io unit)
    (g : A → list (string * string * string)) p1 p2 p3 :
  (∀ x, x ∈ xs → ∀ f, body x f = (foldl (Os.append3 p1 p2 p3) f (g x), Ok tt)) →
  ∀ f, Os.for_each xs body f
       = (foldl (Os.append3 p1 p2 p3) f (xs ≫= g), Ok tt).
Proof.
  induction xs as [|x xs IH]; intros Hbody f; [done|].
  cbn [Os.for_each]. unfold Os.bind. rewrite Hbody by left.
  rewrite IH by (intros; apply Hbody; by right).
  by rewrite bind_cons, foldl_app.
Qed.

Lemma write_token_appends self tea stu target p1 p2 p3 i j lines f :
  token_lines self tea stu target i j = Ok lines →
  write_token self tea stu target p1 p2 p3 i j f
  = (foldl (Os.append3 p1 p2 p3) f (lines_at self tea stu target i j), Ok tt).
Proof.
  intros Hl. unfold write_token, lines_at, Os.bind, Os.lift. rewrite Hl.
  by destruct lines as [[[a b] c]|].
Qed.

Lemma content_append p q text f :
  Os.content p (Os.append q text f)
  = if decide (q = p) then Os.content p f +:+ text else Os.content p f.
Proof.
  unfold Os.content, Os.append. cbn. case_decide as Hpq.
  - subst. by rewrite lookup_insert_eq.
  - by rewrite lookup_insert_ne.
Qed.

Lemma lookup_append_is_Some p q text f :
  is_Some (Os.files f !! p) → is_Some (Os.files (Os.append q text f) !! p).
Proof.
  intros Hp. unfold Os.append. cbn. destruct (decide (q = p)) as [->|].
  - rewrite lookup_insert_eq. by eexists.
  - by rewrite lookup_insert_ne.
Qed.

(** What appending a list of line triples does to the three files, to the
    other files and to the directories. *)
Lemma append_all_spec p1 p2 p3 ls f :
  p1 ≠ p2 → p1 ≠ p3 → p2 ≠ p3 →
  Os.content p1 (foldl (Os.append3 p1 p2 p3) f ls)
  = Os.content p1 f +:+ text (ls.*1.*1) ∧
  Os.content p2 (foldl (Os.append3 p1 p2 p3) f ls)
  = Os.content p2 f +:+ text (ls.*1.*2) ∧
  Os.content p3 (foldl (Os.append3 p1 p2 p3) f ls)
  = Os.content p3 f +:+ text (ls.*2) ∧
  (∀ p, p ≠ p1 → p ≠ p2 → p ≠ p3 →
        Os.files (foldl (Os.append3 p1 p2 p3) f ls) !! p = Os.files f !! p) ∧
  (∀ p, is_Some (Os.files f !! p) →
        is_Some (Os.files (foldl (Os.append3 p1 p2 p3) f ls) !! p)) ∧
  Os.dirs (foldl (Os.append3 p1 p2 p3) f ls) = Os.dirs f.
Proof.
  intros H12 H13 H23. revert f.
  induction ls as [|[[a b] c] ls IH]; intros f.
  - cbn. unfold text. cbn. by rewrite !string_app_nil.
  - cbn [foldl]. destruct (IH (Os.append3 p1 p2 p3 f (a, b, c)))
      as (I1 & I2 & I3 & I4 & I5 & I6).
    rewrite I1, I2, I3, I6. unfold Os.append3. cbn [fst snd].
    rewrite !content_append.
    repeat case_decide; try congruence.
    rewrite !string_app_assoc. split_and!; try done.
    + intros p ???. rewrite I4 by done. unfold Os.append. cbn.
      by rewrite !lookup_insert_ne.
    + intros p Hp. apply I5. by do 3 apply lookup_append_is_Some.
Qed.

Lemma join_inj dir : Inj (=) (=) (Os.join dir).
Proof.
  intros a b. unfold Os.join. case_decide; [done|].
  destruct (Os.ends_with_slash dir); intros Heq.
  - by apply (inj (String.app dir)) in Heq.
  - apply (inj (String.app dir)) in Heq.
    by apply (inj (String.app "/")) in Heq.
Qed.

Lemma dump_files_distinct self :
  tea_file self ≠ stu_file self ∧ tea_file self ≠ gold_file self ∧
  stu_file self ≠ gold_file self.
Proof.
  unfold tea_file, stu_file, gold_file.
  split_and!; intros Heq; apply join_inj in Heq; discriminate Heq.
Qed.

Lemma mapM_result_length {A B} (f : A → result B) l k :
  mapM f l = Ok k → length l = length k.
Proof.
  revert k. induction l as [|x l IH]; intros k H; cbn in H.
  - by injection H as <-.
  - destruct (f x); cbn in H; [|done].
    destruct (mapM f l); cbn in H; [|done].
    injection H as <-. cbn. f_equal. by apply IH.
Qed.

Lemma topk_indices_shape topk_row k logits preds :
  topk_indices topk_row k logits = Ok preds →
  length <$> preds = length <$> items logits.
Proof.
  unfold topk_indices. generalize (items logits). intros l. revert preds.
  induction l as [|x l IH]; intros preds H; cbn in H.
  - by injection H as <-.
  - destruct (mapM (topk_row k) x) eqn:Ex; cbn in H; [|done].
    destruct (mapM (mapM (topk_row k)) l) eqn:El; cbn in H; [|done].
    injection H as <-. apply mapM_result_length in Ex.
    cbn. rewrite (IH _ eq_refl). by f_equal.
Qed.

Lemma at2_in_range {A} (t : list (list A)) i j :
  rectangular t → i < length t → j < shape1 t → ∃ x, at2 t i j = Ok x.
Proof.
  intros Hrect Hi Hj. unfold at2.
  destruct (lookup_lt_is_Some_2 t i Hi) as [row Hrow].
  rewrite Hrow. cbn. unfold rectangular in Hrect.
  rewrite Forall_lookup in Hrect. apply Hrect in Hrow as Hlen.
  destruct (lookup_lt_is_Some_2 row j) as [x Hx]; [lia|].
  rewrite Hx. by eexists.
Qed.

Lemma at2_same_shape {A B} (t : list (list A)) (u : list (list B)) i j x :
  length <$> u = length <$> t →
  at2 t i j = Ok x → ∃ y, at2 u i j = Ok y.
Proof.
  intros Hshape. unfold at2.
  destruct (t !! i) as [row|] eqn:Hrow; [|done]. cbn.
  destruct (row !! j) as [x'|] eqn:Hx; [|done]. intros _.
  assert ((length <$> u) !! i = Some (length row)) as Hu
    by (by rewrite Hshape, list_lookup_fmap, Hrow).
  rewrite list_lookup_fmap in Hu.
  destruct (u !! i) as [urow|] eqn:Hurow; [|done]. cbn in *.
  apply lookup_lt_Some in Hx.
  destruct (lookup_lt_is_Some_2 urow j) as [y Hy]; [simplify_eq; lia|].
  rewrite Hy. by eexists.
Qed.

Lemma at2_Ok_lookup {A} (t : list (list A)) i j x :
  at2 t i j = Ok x → t !! i ≫= (.!! j) = Some x.
Proof. unfold at2. destruct (t !! i ≫= _); naive_solver. Qed.

(** The lines of a position of the target: none at a padding position, the
    rendering of the three entries otherwise. *)
Lemma lines_at_spec self tea stu target i j :
  rectangular target →
  length <$> tea = length <$> target →
  length <$> stu = length <$> target →
  i < length target → j < shape1 target →
  (∃ o, token_lines self tea stu target i j = Ok o) ∧
  lines_at self tea stu target i j
  = (λ p, (preds_line (default [] (tea !! p.1 ≫= (.!! p.2))),
           preds_line (default [] (stu !! p.1 ≫= (.!! p.2))),
           gold_line (default 0%Z (target !! p.1 ≫= (.!! p.2)))))
    <$> nonpad_at (padding_idx self) target i j.
Proof.
  intros Hrect Htea Hstu Hi Hj. unfold lines_at, token_lines, nonpad_at.
  destruct (at2_in_range target i j Hrect Hi Hj) as [t Ht].
  rewrite Ht, (at2_Ok_lookup _ _ _ _ Ht). cbn [mbind result_bind].
  case_decide; [|by eauto].
  destruct (at2_same_shape target tea i j t Htea Ht) as [a Ha].
  destruct (at2_same_shape target stu i j t Hstu Ht) as [b Hb].
  rewrite Ha, Hb. cbn [mbind result_bind]. split; [by eauto|].
  cbn. by rewrite (at2_Ok_lookup _ _ _ _ Ha), (at2_Ok_lookup _ _ _ _ Hb),
    (at2_Ok_lookup _ _ _ _ Ht).
Qed.

Lemma fmap_bind_list {A B C} (h : B → C) (g : A → list B) (l : list A) :
  h <$> (l ≫= g) = l ≫= (λ x, h <$> g x).
Proof.
  induction l as [|x l IH]; [done|].
  by rewrite !bind_cons, fmap_app, IH.
Qed.

Lemma bind_ext_in {A B} (g1 g2 : A → list B) (l : list A) :
  (∀ x, x ∈ l → g1 x = g2 x) → l ≫= g1 = l ≫= g2.
Proof.
  induction l as [|x l IH]; intros H; [done|].
  rewrite !bind_cons, H by left. f_equal. apply IH. intros; apply H; by right.
Qed.

Lemma lookup_touch p q f :
  Os.files (Os.touch q f) !! p
  = if decide (q = p) then Some (Os.content p f) else Os.files f !! p.
Proof.
  unfold Os.touch. cbn. case_decide.
  - subst. by rewrite lookup_insert_eq.
  - by rewrite lookup_insert_ne.
Qed.

Lemma content_touch p q f : Os.content p (Os.touch q f) = Os.content p f.
Proof.
  unfold Os.content at 1. rewrite lookup_touch.
  destruct (decide (q = p)); done.
Qed.

Lemma open_append_in_dir dir name f :
  dir ∈ Os.dirs f →
  Os.open_append dir name f
  = (Os.touch (Os.join dir name) f, Ok (Os.join dir name)).
Proof. intros Hd. unfold Os.open_append. rewrite decide_True; auto. Qed.

(** The directory step of the dump: afterwards [dir] is a directory and no
    file has changed. *)
Lemma mkdir_Ok dir f :
  dir ≠ "" →
  Os.path_exists dir f = false →
  parent_exists dir f →
  Os.mkdir dir f = (Os.FS ({[ dir ]} ∪ Os.dirs f) (Os.files f), Ok tt).
Proof.
  intros Hne He [Hroot Hparent]. unfold Os.mkdir.
  rewrite !decide_False by done. rewrite He.
  destruct (Os.dirname (Os.rstrip_slash dir)) as [[|c d]|]; [done| |done].
  destruct Hparent as [?|Hd]; [done|]. by rewrite decide_True.
Qed.

(** Below a directory that is missing nothing is made. *)
Lemma mkdir_missing_parent dir d f :
  Os.path_exists dir f = false →
  Os.dirname (Os.rstrip_slash dir) = Some d →
  d ≠ "" → d ∉ Os.dirs f → Os.files f !! d = None →
  Os.mkdir dir f = (f, Raise FileNotFoundError).
Proof.
  intros He Hd Hne Hnd Hnf. unfold Os.mkdir.
  case_decide; [done|]. case_decide as Hroot.
  { by rewrite Hroot in Hd. }
  rewrite He, Hd. destruct d as [|c d]; [done|].
  rewrite decide_False by done. rewrite decide_False; [done|].
  rewrite Hnf. by intros [? ?].
Qed.

Lemma mkdir_missing_parent_example :
  Os.mkdir "a/b" Toy.empty_fs = (Toy.empty_fs, Raise FileNotFoundError).
Proof. by apply (mkdir_missing_parent "a/b" "a"). Qed.

Lemma ensure_dir dir f :
  dir ≠ "" →
  dir ∈ Os.dirs f ∨ (Os.path_exists dir f = false ∧ parent_exists dir f) →
  (if Os.path_exists dir f then Os.ret tt f else Os.mkdir dir f)
  = (Os.FS ({[ dir ]} ∪ Os.dirs f) (Os.files f), Ok tt).
Proof.
  intros Hne Hd. destruct (Os.path_exists dir f) eqn:He.
  - destruct Hd as [Hd|[? _]]; [|done]. unfold Os.ret. f_equal.
    destruct f as [ds fl]. cbn in *. f_equal. symmetry.
    by apply subseteq_union_1_L, singleton_subseteq_l.
  - destruct Hd as [Hd|[_ Hp]]; [|by apply mkdir_Ok].
    unfold Os.path_exists in He. apply orb_false_elim in He as [He _].
    by apply bool_decide_eq_false in He.
Qed.

(** The two loops append the lines of the non-padding positions, in batch
    order. *)
Lemma write_loops_spec self tea stu target p1 p2 p3 f :
  rectangular target →
  length <$> tea = length <$> target →
  length <$> stu = length <$> target →
  Os.for_each (seq 0 (length target)) (λ i,
    Os.for_each (seq 0 (shape1 target)) (λ j,
      write_token self tea stu target p1 p2 p3 i j)) f
  = (foldl (Os.append3 p1 p2 p3) f
       ((λ p, (preds_line (default [] (tea !! p.1 ≫= (.!! p.2))),
               preds_line (default [] (stu !! p.1 ≫= (.!! p.2))),
               gold_line (default 0%Z (target !! p.1 ≫= (.!! p.2)))))
        <$> nonpad_positions (padding_idx self) target),
     Ok tt).
Proof.
  intros Hrect Htea Hstu.
  rewrite (for_each_appends _ _
             (λ i, seq 0 (shape1 target)
                   ≫= (λ j, lines_at self tea stu target i j)) p1 p2 p3).
  - f_equal. f_equal. unfold nonpad_positions.
    rewrite fmap_bind_list. apply bind_ext_in. intros i Hi.
    rewrite fmap_bind_list. apply bind_ext_in. intros j Hj.
    apply elem_of_seq in Hi, Hj.
    by apply lines_at_spec; try lia.
  - intros i Hi f'. apply for_each_appends. intros j Hj f''.
    apply elem_of_seq in Hi, Hj.
    destruct (lines_at_spec self tea stu target i j) as [[o Ho] _];
      try done; try lia.
    by eapply write_token_appends.
Qed.

Lemma lookup_content p f :
  is_Some (Os.files f !! p) → Os.files f !! p = Some (Os.content p f).
Proof. intros [x Hx]. unfold Os.content. by rewrite Hx. Qed.

(** The dump, from the first [topk] to the end of the [with] block. *)
Lemma dump_predictions_spec self topk_row tl sl target f0 tea stu :
  topk_indices topk_row (topk self) tl = Ok tea →
  topk_indices topk_row (topk self) sl = Ok stu →
  vocab tl ≠ 0 → vocab sl ≠ 0 →
  length <$> items tl = length <$> target →
  length <$> items sl = length <$> target →
  rectangular target →
  result_path self ≠ "" →
  result_path self ∈ Os.dirs f0
  ∨ (Os.path_exists (result_path self) f0 = false
     ∧ parent_exists (result_path self) f0) →
  ∃ f1,
    dump_predictions self topk_row tl sl target f0 = (f1, Ok tt) ∧
    Os.files f1 !! tea_file self
    = Some (Os.content (tea_file self) f0
            +:+ text (preds_line
                      <$> select [] tea
                            (nonpad_positions (padding_idx self) target))) ∧
    Os.files f1 !! stu_file self
    = Some (Os.content (stu_file self) f0
            +:+ text (preds_line
                      <$> select [] stu
                            (nonpad_positions (padding_idx self) target))) ∧
    Os.files f1 !! gold_file self
    = Some (Os.content (gold_file self) f0
            +:+ text (gold_line
                      <$> select 0%Z target
                            (nonpad_positions (padding_idx self) target))) ∧
    (∀ p, p ≠ tea_file self → p ≠ stu_file self → p ≠ gold_file self →
          Os.files f1 !! p = Os.files f0 !! p).
Proof.
  intros Htea Hstu HVt HVs Hst Hss Hrect Hne Hdir.
  unfold dump_predictions, Os.bind, Os.lift. rewrite Htea, Hstu.
  rewrite ensure_dir by done.
  rewrite decide_False by tauto. rewrite decide_True by done.
  rewrite !open_append_in_dir
    by (cbn; by apply elem_of_union_l, elem_of_singleton_2).
  fold (tea_file self) (stu_file self) (gold_file self).
  rewrite write_loops_spec; try done.
  2:{ by rewrite (topk_indices_shape _ _ _ _ Htea). }
  2:{ by rewrite (topk_indices_shape _ _ _ _ Hstu). }
  eexists. split; [done|].
  destruct (dump_files_distinct self) as (H12 & H13 & H23).
  match goal with |- context [foldl _ ?fo ?ls] =>
    destruct (append_all_spec (tea_file self) (stu_file self) (gold_file self)
                ls fo H12 H13 H23) as (C1 & C2 & C3 & C4 & C5 & _);
    set (lines := ls) in *; set (f_open := fo) in *
  end.
  assert (∀ p, Os.content p f_open = Os.content p f0) as Hcontent.
  { intros p. subst f_open. by rewrite !content_touch. }
  assert (∀ p, p = tea_file self ∨ p = stu_file self ∨ p = gold_file self →
               is_Some (Os.files f_open !! p)) as Hopen.
  { intros p Hp. subst f_open. rewrite !lookup_touch.
    repeat case_decide; try by eexists.
    destruct Hp as [?|[?|?]]; congruence. }
  split_and!.
  - rewrite lookup_content by (apply C5, Hopen; auto).
    rewrite C1, Hcontent. do 2 f_equal. subst lines. unfold select.
    rewrite <- !list_fmap_compose. done.
  - rewrite lookup_content by (apply C5, Hopen; auto).
    rewrite C2, Hcontent. do 2 f_equal. subst lines. unfold select.
    rewrite <- !list_fmap_compose. done.
  - rewrite lookup_content by (apply C5, Hopen; auto).
    rewrite C3, Hcontent. do 2 f_equal. subst lines. unfold select.
    rewrite <- !list_fmap_compose. done.
  - intros p ???. rewrite C4 by done. subst f_open.
    rewrite !lookup_touch. by rewrite !decide_False by done.
Qed.

End dump.

(** ** The record_topk_predictions criterion *)

Section record_topk.
Import Torch Fairseq Spec RecordTopk.




Lemma record_topk_label_smoothed_Ok lprobs target epsilon pad reduce :
  indexable (rows lprobs) target →
  2 ≤ ncols lprobs →
  (0 < epsilon < 1)%R →
  ∃ loss nll_loss,
    label_smoothed_nll_loss lprobs target epsilon (Some pad) reduce
    = Ok (loss, nll_loss).
Proof.
  intros Hidx HV Heps. unfold label_smoothed_nll_loss.
  rewrite (gather_indexable _ _ Hidx). cbn [mbind result_bind].
  pose proof (Forall2_length _ _ _ Hidx) as Hlen.
  rewrite !masked_fill_Ok
    by (rewrite length_eq_mask, ?length_fmap, ?length_zip_with; lia).
  cbn [mbind result_bind].
  rewrite py_div_nonzero by lia. cbn [mbind result_bind].
  assert (0 < epsilon / IZR (Z.of_nat (ncols lprobs) - 1))%R as Hpos.
  { apply Rdiv_lt_0_compat; [lra|]. apply IZR_lt. lia. }
  destruct reduce.
  - cbn [tadd tscale tmap mbind result_bind].
    rewrite (py_log_pos (1 - epsilon)) by lra. cbn [mbind result_bind].
    rewrite (py_log_pos _ Hpos). cbn [mbind result_bind]. by eauto.
  - rewrite (tadd_same_shape _ _ Column) by
      (eauto; rewrite !length_zip_with, !length_fmap, length_zip_with,
         length_eq_mask; lia).
    cbn [mbind result_bind].
    rewrite (py_log_pos (1 - epsilon)) by lra. cbn [mbind result_bind].
    rewrite (py_log_pos _ Hpos). cbn [mbind result_bind]. by eauto.
Qed.

Lemma all_zero_times_zero t : all_zero (tmap (λ x, x * 0.0)%R t).
Proof.
  destruct t as [x|xs|xs]; cbn; [lra|..];
    apply Forall_fmap, Forall_forall; intros x _; cbn; lra.
Qed.


(** With [report_accuracy] off, a label smoothing strictly between 0 and 1
    and consistent shapes, [forward] with a teacher returns. *)
Lemma record_topk_forward_returns self topk_row model teacher s reduce f0
    tea stu :
  indexable (rows (get_lprobs_and_target self (eval model)
                     (run (eval model) s) s).1)
    (get_lprobs_and_target self (eval model) (run (eval model) s) s).2 →
  2 ≤ ncols (get_lprobs_and_target self (eval model)
               (run (eval model) s) s).1 →
  (0 < eps self < 1)%R →
  report_accuracy self = false →
  topk_indices topk_row (topk self) (run (eval teacher) s).1 = Ok tea →
  topk_indices topk_row (topk self) (run (eval model) s).1 = Ok stu →
  vocab (run (eval teacher) s).1 ≠ 0 →
  vocab (run (eval model) s).1 ≠ 0 →
  length <$> items (run (eval teacher) s).1 = length <$> target s →
  length <$> items (run (eval model) s).1 = length <$> target s →
  rectangular (target s) →
  result_path self ≠ "" →
  result_path self ∈ Os.dirs f0
  ∨ (Os.path_exists (result_path self) f0 = false
     ∧ parent_exists (result_path self) f0) →
  ∃ f1 loss sample_size logging,
    forward self topk_row model s (Some teacher) reduce f0
    = (f1, (eval model, Some (eval teacher),
            Ok (loss, sample_size, logging))).
Proof.
  intros Hidx HV Heps Hrep Htea Hstu HVt HVs Hst Hss Hrect Hne Hdir.
  destruct (dump_predictions_spec self topk_row _ _ _ f0 tea stu
              Htea Hstu HVt HVs Hst Hss Hrect Hne Hdir) as (f1 & Hdump & _).
  unfold forward, compute_loss.
  destruct (get_lprobs_and_target _ _ _ _) as [lprobs target] eqn:Elt.
  destruct (record_topk_label_smoothed_Ok lprobs target (eps self)
              (padding_idx self) reduce Hidx HV Heps)
    as (mle_loss & nll_loss & ->).
  cbn [fmap option_fmap option_map]. rewrite Hdump.
  cbn [mbind result_bind]. rewrite Hrep. by eauto 10.
Qed.

(** C9. Whenever [forward] is given a teacher and returns, the loss it
    returns is the cross-entropy times 0.0: every entry is zero. The
    cross-entropy itself is what [compute_loss] gave, and it is reported
    under ["mle_loss"] (and the NLL under ["nll_loss"]), while ["loss"]
    reports the zero loss. *)
Theorem record_topk_loss_is_zero self topk_row model teacher s reduce f0 f1
    model' teacher' loss sample_size logging :
  forward self topk_row model s (Some teacher) reduce f0
  = (f1, (model', teacher', Ok (loss, sample_size, logging))) →
  ∃ mle_loss nll_loss,
    compute_loss self (eval model) (run (eval model) s) s reduce
    = Ok (mle_loss, nll_loss) ∧
    loss = tmap (λ x, x * 0.0)%R mle_loss ∧
    all_zero loss ∧
    logging !! "loss" = Some (LTensor loss) ∧
    logging !! "mle_loss" = Some (LTensor mle_loss) ∧
    logging !! "nll_loss" = Some (LTensor nll_loss).
Proof.
  unfold forward.
  destruct (compute_loss _ _ _ _ _) as [[mle_loss nll_loss]|e]; [|done].
  cbn [fmap option_fmap option_map].
  destruct (dump_predictions _ _ _ _ _ _) as [f' [[]|e]];
    cbn [mbind result_bind]; [|done].
  destruct (report_accuracy self); [done|].
  intros Heq. simplify_eq. exists mle_loss, nll_loss.
  split_and!; [done|done|apply all_zero_times_zero|..];
    unfold logging_output; by simplify_map_eq.
Qed.

Lemma toy_recorder_loss :
  ∃ mle_loss nll_loss,
    compute_loss Toy.recorder (eval (Toy.model Toy.student_out))
      (run (eval (Toy.model Toy.student_out)) Toy.batch) Toy.batch true
    = Ok (mle_loss, nll_loss).
Proof.
  apply record_topk_label_smoothed_Ok.
  - repeat constructor; cbn; lia.
  - cbn. lia.
  - cbn. lra.
Qed.


(** C9 on the toy batch. *)
Lemma record_topk_loss_is_zero_witness :
  ∃ f1 loss sample_size logging,
    forward Toy.recorder Toy.first_k (Toy.model Toy.student_out) Toy.batch
      (Some (Toy.model Toy.teacher_out)) true Toy.empty_fs
    = (f1, (eval (Toy.model Toy.student_out),
            Some (eval (Toy.model Toy.teacher_out)),
            Ok (loss, sample_size, logging))) ∧
    all_zero loss ∧
    is_Some (logging !! "mle_loss").
Proof.
  destruct (record_topk_forward_returns Toy.recorder Toy.first_k
              (Toy.model Toy.student_out) (Toy.model Toy.teacher_out)
              Toy.batch true Toy.empty_fs [[[0]; [0]]]%Z [[[0]; [0]]]%Z)
    as (f1 & loss & sample_size & logging & Hf).
  - repeat constructor; cbn; lia.
  - lazy. lia.
  - cbn. lra.
  - reflexivity.
  - reflexivity.
  - reflexivity.
  - cbn. lia.
  - cbn. lia.
  - reflexivity.
  - reflexivity.
  - repeat constructor.
  - discriminate.
  - right. split; [reflexivity|]. split; [by lazy|by lazy].
  - exists f1, loss, sample_size, logging.
    destruct (record_topk_loss_is_zero _ _ _ _ _ _ _ _ _ _ _ _ _ Hf)
      as (mle_loss & nll_loss & _ & _ & Hzero & _ & Hmle & _).
    split; [exact Hf|]. split; [exact Hzero|].
    rewrite Hmle. by eexists.
Defined.

End record_topk.

(** ** The combination of the two distributions *)

Section combined_prob.
Import Combiner.

Lemma torch_log_floor x fl :
  (0 < fl)%R →
  torch_log (Rmax x fl) = Finite (ln (Rmax x fl)) ∧
  (ln fl <= ln (Rmax x fl))%R.
Proof.
  intros Hfl. pose proof (Rmax_r x fl) as Hr.
  unfold torch_log. rewrite decide_True by lra. split; [done|].
  destruct (Req_dec_T fl (Rmax x fl)) as [<-|Hne]; [lra|].
  left. apply ln_increasing; lra.
Qed.

(** C7. [get_combined_prob] gives, entry by entry, the mixture
    lambda * knn_prob + (1 - lambda) * model_prob, which stays non-negative
    for non-negative probabilities and lambda in [0, 1]. With [log_probs]
    every entry is the natural logarithm of the mixture entry taken no lower
    than the floor: it is a finite number, at least the logarithm of the
    floor, never the minus infinity of log(0). *)
Theorem combined_prob_is_floored_mixture c knn_prob model_out :
  (0 <= lambda c <= 1)%R →
  (0 < floor c)%R →
  (∀ i k m, knn_prob !! i = Some k → model_prob c model_out !! i = Some m →
     get_combined_prob c knn_prob model_out false !! i
     = Some (Finite (lambda c * k + (1 - lambda c) * m)) ∧
     get_combined_prob c knn_prob model_out true !! i
     = Some (Finite (ln (Rmax (lambda c * k + (1 - lambda c) * m) (floor c))))) ∧
  Forall (λ y, ∃ x, y = Finite x ∧ (ln (floor c) <= x)%R)
    (get_combined_prob c knn_prob model_out true) ∧
  (Forall (λ k, 0 <= k)%R knn_prob →
   Forall (λ m, 0 <= m)%R (model_prob c model_out) →
   Forall (λ x, 0 <= x)%R (mixture c knn_prob model_out)).
Proof.
  intros Hlam Hfl. split_and!.
  - intros i k m Hk Hm. unfold get_combined_prob, mixture.
    rewrite !list_lookup_fmap, lookup_zip_with, Hk. cbn. rewrite Hm. cbn.
    split; [done|]. by destruct (torch_log_floor
      (lambda c * k + (1 - lambda c) * m) (floor c) Hfl) as [-> _].
  - unfold get_combined_prob. apply Forall_fmap, Forall_forall.
    intros x _. cbn.
    destruct (torch_log_floor x (floor c) Hfl) as [-> Hle]. by eauto.
  - unfold mixture. generalize (model_prob c model_out). intros ms Hk.
    revert ms. induction Hk as [|k ks Hk0 _ IH]; intros ms Hm; [constructor|].
    destruct Hm as [|m ms Hm0 Hm]; [constructor|]. cbn.
    apply Forall_cons. split; [nra|by apply IH].
Qed.

Lemma combined_prob_is_floored_mixture_witness :
  Forall (λ y, ∃ x, y = Finite x ∧ (ln 0.001 <= x)%R)
    (get_combined_prob Toy.half_combiner [0; 1]%R [0; 0]%R true).
Proof.
  destruct (combined_prob_is_floored_mixture Toy.half_combiner [0; 1]%R
              [0; 0]%R) as (_ & Hfloor & _).
  - cbn. lra.
  - cbn. lra.
  - exact Hfloor.
Defined.

End combined_prob.

(** ** The adaptive kNN-MT model *)

Section adaptive_knn_mt.
Import Torch Fairseq AdaptiveKnnMt.

(** C6. After [AdaptiveKNNMT.__init__] in the mode ["train_metak"] the model
    has the parameters it had, and a parameter has its gradient enabled
    exactly when it lies in the combiner: every other parameter is frozen. *)
Theorem train_metak_trains_only_combiner a params :
  knn_mode a = "train_metak" →
  ∀ p, init a params !! p
       = (λ _, bool_decide ("combiner" ∈ p.1)) <$> params !! p.
Proof.
  intros Hmode p. unfold init. rewrite decide_True by done.
  unfold enable_module_grad, disable_model_grad.
  rewrite map_lookup_imap, lookup_fmap.
  destruct (params !! p) as [g|]; [|done]. cbn.
  by case_decide; case_bool_decide.
Qed.

Lemma train_metak_trains_only_combiner_witness :
  init (Args "train_metak" 8 None) Toy.parameters
    !! (["decoder"; "combiner"; "meta_k_network"], "weight") = Some true ∧
  init (Args "train_metak" 8 None) Toy.parameters
    !! (["decoder"; "output_projection"], "weight") = Some false.
Proof.
  split; rewrite train_metak_trains_only_combiner by reflexivity;
    reflexivity.
Defined.

(** C10, as stated, fails on a call without encoder output: the base
    decoder returns its output, the subclass raises [TypeError] on
    [encoder_out[0]]. *)
Lemma build_datastore_forward_differs_without_encoder_out :
  (forward Toy.datastore_builder [[2; 0]]%Z None Toy.no_features_args false).2
  = Raise TypeError ∧
  base_forward (base Toy.datastore_builder) [[2; 0]]%Z None
    Toy.no_features_args false
  = Ok (Toy.student_out, Extra None []) ∧
  (forward Toy.datastore_builder [[2; 0]]%Z None Toy.no_features_args false).2
  ≠ base_forward (base Toy.datastore_builder) [[2; 0]]%Z None
      Toy.no_features_args false.
Proof. split_and!; [reflexivity|reflexivity|discriminate]. Qed.

(** C10, amended. In the mode ["build_datastore"], on a call with an encoder
    output [forward] returns what the base decoder's [forward] returns; on
    every call it leaves the retriever and its results as they were, so no
    retrieval takes place; and [get_normalized_probs] returns the base
    decoder's probabilities, with no combination. *)
Theorem build_datastore_is_base_decoder self :
  knn_mode (dec_args self) = "build_datastore" →
  (∀ prev out fargs features_only,
     (forward self prev (Some out) fargs features_only).2
     = base_forward (base self) prev (Some out) fargs features_only) ∧
  (∀ prev enc fargs features_only,
     retriever (forward self prev enc fargs features_only).1 = retriever self) ∧
  (∀ output log_probs s,
     get_normalized_probs self output log_probs s
     = Ok (base_get_normalized_probs (base self) output log_probs s)).
Proof.
  intros Hmode. split_and!.
  - intros prev out fargs fo. unfold forward, base_forward. cbn.
    destruct (extract_features _ _ _ _) as [x extra]. cbn.
    by rewrite decide_True.
  - intros prev enc fargs fo. unfold forward. cbn.
    destruct (extract_features _ _ _ _) as [x extra].
    destruct enc as [out|]; [|done]. cbn. by rewrite decide_True.
  - intros output log_probs s. unfold get_normalized_probs.
    rewrite decide_False; [done|]. rewrite Hmode. by intros [|].
Qed.

Lemma build_datastore_is_base_decoder_witness :
  (forward Toy.datastore_builder [[2; 0]]%Z
     (Some (EncoderOut Toy.teacher_out [])) Toy.no_features_args false).2
  = Ok (Toy.student_out, Extra None []) ∧
  get_normalized_probs Toy.datastore_builder (Toy.student_out, None) false None
  = Ok (Toy.probs_of false Toy.student_out).
Proof.
  destruct (build_datastore_is_base_decoder Toy.datastore_builder)
    as (Hfwd & _ & Hprobs).
  - reflexivity.
  - split; [rewrite Hfwd|rewrite Hprobs]; reflexivity.
Defined.

End adaptive_knn_mt.

(** * Further properties of the code *)

(** ** The two FIFO queues *)

Section fifo.
Import Adapter.

Lemma push_length cap (queue tensor : list R) :
  length (push_to_FIFO_queue cap queue tensor)
  = if decide (Z.of_nat (length tensor) + Z.of_nat (length queue) < cap)%Z
    then length queue + length tensor
    else length queue `max` length tensor.
Proof.
  unfold push_to_FIFO_queue. case_decide; rewrite length_app; [done|].
  rewrite length_drop. lia.
Qed.

Lemma push_teacher_eq cap (queue tensor : list R) :
  push_to_teacher_FIFO_queue cap queue tensor
  = push_to_FIFO_queue cap queue tensor.
Proof. done. Qed.

Lemma push_suffix cap (queue tensor history : list R) :
  queue `suffix_of` history →
  push_to_FIFO_queue cap queue tensor `suffix_of` history ++ tensor.
Proof.
  intros Hq. unfold push_to_FIFO_queue. case_decide.
  - by apply suffix_app.
  - apply suffix_app. etrans; [apply suffix_drop|done].
Qed.

(** X1. The queue is first-in first-out. After any sequence of pushes from
    the empty queue of [__init__], the queue is a suffix of the pushed
    tensors laid end to end: entries leave only at the old end and never
    change order. The tensor pushed last ends the queue. The teacher's
    queue behaves the same. *)
Theorem push_to_FIFO_queue_is_fifo cap (tensors : list (list R)) (last : list R) :
  foldl (push_to_FIFO_queue cap) [] tensors `suffix_of` concat tensors ∧
  foldl (push_to_teacher_FIFO_queue cap) [] tensors `suffix_of` concat tensors ∧
  last `suffix_of` foldl (push_to_FIFO_queue cap) [] (tensors ++ [last]) ∧
  last `suffix_of` foldl (push_to_teacher_FIFO_queue cap) [] (tensors ++ [last]).
Proof.
  assert (∀ queue history : list R,
            queue `suffix_of` history →
            foldl (push_to_FIFO_queue cap) queue tensors
              `suffix_of` history ++ concat tensors) as Hinv.
  { induction tensors as [|t ts IH]; intros queue history Hq; cbn.
    - by rewrite app_nil_r.
    - rewrite (assoc_L (++)). apply IH. by apply push_suffix. }
  assert (∀ queue : list R,
            last `suffix_of`
              foldl (push_to_FIFO_queue cap) queue (tensors ++ [last]))
    as Hlast.
  { intros queue. rewrite foldl_app. cbn. unfold push_to_FIFO_queue.
    case_decide; by apply suffix_app_r. }
  split_and!.
  - by apply (Hinv [] []).
  - by apply (Hinv [] []).
  - apply Hlast.
  - apply Hlast.
Qed.

(** X2. Starting from the empty queue of [__init__], any sequence of pushes
    of tensors that each have fewer than [difficult_queue_size] elements
    leaves a queue of fewer than [difficult_queue_size] elements. *)
Theorem push_to_FIFO_queue_bounded cap (tensors : list (list R)) :
  (0 < cap)%Z →
  Forall (λ t, Z.of_nat (length t) < cap)%Z tensors →
  (Z.of_nat (length (foldl (push_to_FIFO_queue cap) [] tensors)) < cap)%Z ∧
  (Z.of_nat (length (foldl (push_to_teacher_FIFO_queue cap) [] tensors))
   < cap)%Z.
Proof.
  intros Hcap Hts.
  assert (∀ queue : list R,
            (Z.of_nat (length queue) < cap)%Z →
            (Z.of_nat (length (foldl (push_to_FIFO_queue cap) queue tensors))
             < cap)%Z) as Hinv.
  { induction Hts as [|t ts Ht _ IH]; intros queue Hq; [done|].
    cbn [foldl]. apply IH. rewrite push_length. case_decide; lia. }
  split; [by apply Hinv|].
  replace (foldl (push_to_teacher_FIFO_queue cap) [] tensors)
    with (foldl (push_to_FIFO_queue cap) [] tensors); [by apply Hinv|].
  clear. generalize (@nil R). induction tensors as [|t ts IH]; intros q;
    [done|]. cbn [foldl]. apply IH.
Qed.

Lemma push_to_FIFO_queue_bounded_witness :
  (Z.of_nat (length (foldl (push_to_FIFO_queue 5) []
                       [[1; 2; 3]; [4; 5; 6]; [7]]%R)) < 5)%Z.
Proof.
  apply (push_to_FIFO_queue_bounded 5 [[1; 2; 3]; [4; 5; 6]; [7]]%R).
  - lia.
  - repeat constructor; cbn; lia.
Defined.

End fifo.

(** ** The Jensen-Shannon term *)

Section jensen_shannon.
Import Torch Spec Adapter.

Lemma mat_add_inv a b r : mat_add a b = Ok r → same_shape a b.
Proof.
  revert b r. induction a as [|x a IH]; intros [|y b] r H; simplify_eq/=;
    [constructor|].
  destruct (zip_exact Rplus x y) eqn:Ez; simplify_eq/=.
  destruct (mat_add a b) eqn:Em; simplify_eq/=.
  apply zip_exact_inv in Ez as [Hlen _]. constructor; [done|by eapply IH].
Qed.

Lemma mat_add_Raise a b e : mat_add a b = Raise e → e = RuntimeError.
Proof.
  revert b. induction a as [|x a IH]; intros [|y b] H; simplify_eq/=;
    try done.
  destruct (zip_exact Rplus x y) eqn:Ez; simplify_eq/=.
  - destruct (mat_add a b) eqn:Em; simplify_eq/=. by eapply IH.
  - by eapply zip_exact_Raise.
Qed.

Lemma kl_div_Ok i t :
  same_shape i t → kl_div i t = Ok (zip_with (zip_with kl_elem) i t).
Proof.
  induction 1 as [|x y i t Hxy _ IH]; [done|].
  cbn [kl_div]. by rewrite (zip_exact_Ok _ _ _ Hxy), IH.
Qed.

Lemma same_shape_sym a b : same_shape a b → same_shape b a.
Proof. induction 1; constructor; done. Qed.

Lemma js_row (x y : list R) :
  length x = length y →
  map (λ v, v / 2.0)%R
    (zip_with Rplus
       (zip_with kl_elem
          (map log (map (λ v, v / 2.0)%R (zip_with Rplus x y))) x)
       (zip_with kl_elem
          (map log (map (λ v, v / 2.0)%R (zip_with Rplus x y))) y))
  = zip_with js_elem x y.
Proof.
  revert y. induction x as [|a x IH]; intros [|b y] Hlen; simplify_eq/=;
    [done|].
  rewrite IH by done. f_equal. unfold js_elem, log.
  replace ((a + b) / 2.0)%R with ((a + b) / 2)%R by lra. lra.
Qed.

(** On two matrices of one shape [js_div] returns, entry by entry, the
    Jensen-Shannon term. *)
Lemma js_div_Ok p q :
  same_shape p q → js_div p q = Ok (zip_with (zip_with js_elem) p q).
Proof.
  intros Hs. unfold js_div. rewrite (mat_add_Ok _ _ Hs).
  cbn [mbind result_bind].
  assert (same_shape
            (map (map log)
               (map (map (λ v, v / 2.0)%R) (zip_with (zip_with Rplus) p q)))
            p ∧
          same_shape
            (map (map log)
               (map (map (λ v, v / 2.0)%R) (zip_with (zip_with Rplus) p q)))
            q) as [Hp Hq].
  { induction Hs as [|x y p q Hxy _ [IHp IHq]]; cbn.
    - split; constructor.
    - split; (constructor; [|done]);
        rewrite !length_map, length_zip_with; lia. }
  rewrite (kl_div_Ok _ _ Hp), (kl_div_Ok _ _ Hq). cbn [mbind result_bind].
  rewrite mat_add_Ok.
  2:{ clear Hp Hq. induction Hs as [|x y p q Hxy _ IH]; cbn; constructor;
        [|done]. rewrite !length_zip_with, !length_map, !length_zip_with. lia. }
  cbn [mbind result_bind]. f_equal. clear Hp Hq.
  induction Hs as [|x y p q Hxy _ IH]; [done|].
  cbn. cbn in IH. rewrite IH. f_equal. by apply js_row.
Qed.

Lemma js_elem_comm x y : js_elem x y = js_elem y x.
Proof. unfold js_elem. rewrite (Rplus_comm y x). lra. Qed.

(** X3. [js_div] is symmetric in its two arguments: on two matrices of one
    shape it returns a matrix, and the same one with the arguments
    exchanged. *)
Theorem js_div_symmetric p q :
  same_shape p q →
  js_div p q = js_div q p ∧ ∃ r, js_div p q = Ok r ∧ same_shape p r.
Proof.
  intros Hs.
  rewrite (js_div_Ok _ _ Hs), (js_div_Ok _ _ (same_shape_sym _ _ Hs)).
  split.
  - f_equal. induction Hs as [|x y p q Hxy _ IH]; [done|].
    cbn. rewrite IH. f_equal.
    clear IH. revert y Hxy. induction x as [|a x IHx]; intros [|b y] Hlen;
      simplify_eq/=; [done|]. by rewrite js_elem_comm, (IHx y).
  - eexists. split; [done|].
    induction Hs as [|x y p q Hxy _ IH]; cbn; constructor; [|done].
    rewrite length_zip_with. lia.
Qed.

Lemma js_div_symmetric_witness :
  js_div [[0.5; 0.5]]%R [[0.25; 0.75]]%R
  = js_div [[0.25; 0.75]]%R [[0.5; 0.5]]%R.
Proof.
  apply (js_div_symmetric [[0.5; 0.5]]%R [[0.25; 0.75]]%R).
  repeat constructor.
Defined.

(** For positive [a] and [b]: a * (ln b - ln a) <= b - a. *)
Lemma ln_gap a b : (0 < a)%R → (0 < b)%R → (a * (ln b - ln a) <= b - a)%R.
Proof.
  intros Ha Hb.
  assert (ln (b / a) = ln b - ln a)%R as Hln.
  { unfold Rdiv. rewrite ln_mult, ln_Rinv; try lra.
    by apply Rinv_0_lt_compat. }
  pose proof (exp_ineq1_le (ln (b / a))) as Hexp.
  rewrite exp_ln in Hexp by (by apply Rdiv_lt_0_compat).
  rewrite Hln in Hexp.
  assert (a * (1 + (ln b - ln a)) <= a * (b / a))%R as Hm
    by (apply Rmult_le_compat_l; lra).
  replace (a * (b / a))%R with b in Hm by (field; lra). lra.
Qed.

Lemma js_elem_nonneg x y : (0 < x)%R → (0 < y)%R → (0 <= js_elem x y)%R.
Proof.
  intros Hx Hy. unfold js_elem, kl_elem, xlogy.
  rewrite !decide_False by lra.
  pose proof (ln_gap x ((x + y) / 2) Hx ltac:(lra)).
  pose proof (ln_gap y ((x + y) / 2) Hy ltac:(lra)). lra.
Qed.

Lemma js_elem_diag x : (0 < x)%R → js_elem x x = 0%R.
Proof.
  intros Hx. unfold js_elem, kl_elem, xlogy. rewrite !decide_False by lra.
  replace ((x + x) / 2)%R with x by lra. lra.
Qed.

(** X4. On two matrices of one shape with positive entries [js_div] returns
    a matrix of that shape whose entries are all non-negative; and of a
    matrix with itself it returns zeros. *)
Theorem js_div_nonneg p q :
  same_shape p q →
  all_entries (λ x, 0 < x)%R p →
  all_entries (λ x, 0 < x)%R q →
  (∃ r, js_div p q = Ok r ∧ same_shape p r ∧ all_entries (λ x, 0 <= x)%R r) ∧
  js_div p p = Ok (map (map (λ _, 0%R)) p).
Proof.
  intros Hs Hp Hq. split.
  - rewrite (js_div_Ok _ _ Hs). eexists. split; [done|].
    unfold all_entries in *. revert Hp Hq.
    induction Hs as [|x y p q Hxy _ IH]; intros Hp Hq.
    { split; constructor. }
    apply Forall_cons in Hp as [Hx Hp]. apply Forall_cons in Hq as [Hy Hq].
    destruct (IH Hp Hq) as [IH1 IH2]. cbn. split.
    + constructor; [|done]. rewrite length_zip_with. lia.
    + constructor; [|done]. clear -Hxy Hx Hy. revert y Hxy Hy.
      induction Hx as [|a x Ha _ IHx]; intros [|b y] Hlen Hy; simplify_eq/=;
        [constructor|].
      apply Forall_cons in Hy as [Hb Hy]. apply Forall_cons. split.
      * by apply js_elem_nonneg.
      * by apply IHx.
  - rewrite js_div_Ok by (clear; induction p; constructor; done). f_equal.
    unfold all_entries in Hp. clear -Hp.
    induction Hp as [|x p Hx _ IH]; [done|]. cbn. rewrite IH. f_equal.
    clear -Hx. induction Hx as [|a x Ha _ IHx]; [done|]. cbn.
    by rewrite IHx, js_elem_diag.
Qed.

Lemma js_div_nonneg_witness :
  ∃ r, js_div [[0.5; 0.5]]%R [[0.25; 0.75]]%R = Ok r ∧
       all_entries (λ x, 0 <= x)%R r.
Proof.
  destruct (js_div_nonneg [[0.5; 0.5]]%R [[0.25; 0.75]]%R)
    as [(r & Hr & _ & Hnn) _].
  - repeat constructor.
  - solve_entries.
  - solve_entries.
  - by exists r.
Defined.

End jensen_shannon.

(** ** The label-smoothed loss of label_smoothed_cross_entropy-step2.py *)

Section adapter_label_smoothing.
Import Torch Fairseq Spec Adapter.

Lemma sum_list_linear a b (xs ys : list R) :
  length xs = length ys →
  sum_list (zip_with Rplus (Rmult a <$> xs) (Rmult b <$> ys))
  = (a * sum_list xs + b * sum_list ys)%R.
Proof.
  revert ys. induction xs as [|x xs IH]; intros [|y ys] Hlen; simplify_eq/=.
  - unfold sum_list. cbn. lra.
  - unfold sum_list in *. cbn. rewrite IH by done. lra.
Qed.

(** X5. Without reduction the two returned tensors have one entry per
    target; the entries at the padding positions are zero; and the entries
    add up to the two values returned with reduction. *)
Theorem label_smoothed_per_token lprobs target epsilon pad :
  indexable (rows lprobs) target →
  ncols lprobs ≠ 0 →
  ∃ losses nlls,
    label_smoothed_nll_loss lprobs target epsilon (Some pad) false
    = Ok (Column losses, Column nlls) ∧
    length losses = length target ∧ length nlls = length target ∧
    (∀ i, target !! i = Some pad →
          losses !! i = Some 0%R ∧ nlls !! i = Some 0%R) ∧
    label_smoothed_nll_loss lprobs target epsilon (Some pad) true
    = Ok (Scalar (sum_list losses), Scalar (sum_list nlls)).
Proof.
  intros Hidx HV. unfold label_smoothed_nll_loss.
  rewrite (gather_indexable _ _ Hidx). cbn [mbind result_bind].
  pose proof (Forall2_length _ _ _ Hidx) as Hlen.
  rewrite !masked_fill_Ok
    by (rewrite length_eq_mask, ?length_fmap, ?length_zip_with; lia).
  cbn [mbind result_bind].
  rewrite py_div_nonzero by lia. cbn [mbind result_bind].
  set (n := zip_with _ (Ropp <$> _) _). set (sm := zip_with _ (_ <$> rows _) _).
  assert (length n = length target) as Hn.
  { subst n. rewrite length_zip_with, length_eq_mask, length_fmap,
      length_zip_with. lia. }
  assert (length sm = length target) as Hsm.
  { subst sm. rewrite length_zip_with, length_eq_mask, length_fmap. lia. }
  rewrite (tadd_same_shape _ _ Column) by (eauto; lia).
  cbn [mbind result_bind tadd tscale tmap].
  do 2 eexists. split; [done|]. split_and!.
  - rewrite length_zip_with, !length_fmap. lia.
  - done.
  - intros i Hi.
    assert (n !! i = Some 0%R) as Hni.
    { subst n. unfold eq_mask. rewrite lookup_zip_with, !list_lookup_fmap, Hi.
      destruct (lookup_lt_is_Some_2 (zip_with at_gold (rows lprobs) target) i)
        as [v ->]; [rewrite length_zip_with; apply lookup_lt_Some in Hi; lia|].
      cbn. by rewrite bool_decide_eq_true_2. }
    assert (sm !! i = Some 0%R) as Hsi.
    { subst sm. unfold eq_mask. rewrite lookup_zip_with, !list_lookup_fmap, Hi.
      destruct (lookup_lt_is_Some_2 (rows lprobs) i)
        as [v ->]; [apply lookup_lt_Some in Hi; lia|].
      cbn. by rewrite bool_decide_eq_true_2. }
    split; [|done].
    rewrite lookup_zip_with, !list_lookup_fmap, Hni, Hsi. cbn.
    f_equal. lra.
  - rewrite sum_list_linear by lia. done.
Qed.

Lemma label_smoothed_per_token_witness :
  ∃ losses nlls,
    label_smoothed_nll_loss (Mat 2 [[-1; -2]; [-3; -4]]%R) [1; 0]%Z 0.1
      (Some 0%Z) false
    = Ok (Column losses, Column nlls) ∧
    losses !! 1 = Some 0%R.
Proof.
  destruct (label_smoothed_per_token (Mat 2 [[-1; -2]; [-3; -4]]%R) [1; 0]%Z
              0.1 0%Z) as (losses & nlls & Hr & _ & _ & Hpad & _).
  - repeat constructor; cbn; lia.
  - done.
  - exists losses, nlls. split; [exact Hr|]. by apply (Hpad 1).
Defined.

Lemma nll_nonneg pad m target :
  all_entries (λ x, x <= 0)%R m → (0 <= nll pad m target)%R.
Proof.
  intros Hm. revert target. induction Hm as [|row m Hrow _ IH];
    intros [|t target]; cbn; try lra.
  specialize (IH target). case_decide; [lra|].
  assert (at_gold row t <= 0)%R; [|lra].
  unfold at_gold. destruct (row !! Z.to_nat t) as [v|] eqn:Hv; cbn; [|lra].
  rewrite Forall_forall in Hrow. apply Hrow. by eapply list_elem_of_lookup_2.
Qed.

Lemma sum_list_nonpos (row : list R) :
  Forall (λ x, x <= 0)%R row → (sum_list row <= 0)%R.
Proof.
  induction 1 as [|x row Hx _ IH]; unfold sum_list in *; cbn; lra.
Qed.

Lemma smooth_nonneg pad m target :
  all_entries (λ x, x <= 0)%R m → (0 <= smooth pad m target)%R.
Proof.
  intros Hm. revert target. induction Hm as [|row m Hrow _ IH];
    intros [|t target]; cbn; try lra.
  specialize (IH target). pose proof (sum_list_nonpos _ Hrow).
  case_decide; lra.
Qed.

(** X6. On log-probabilities (no entry above zero), with a label smoothing
    between 0 and 1, the reduced loss and the reduced NLL are not
    negative. *)
Theorem label_smoothed_nonneg lprobs target epsilon pad :
  indexable (rows lprobs) target →
  ncols lprobs ≠ 0 →
  all_entries (λ x, x <= 0)%R (rows lprobs) →
  (0 <= epsilon <= 1)%R →
  ∃ loss nll_loss,
    label_smoothed_nll_loss lprobs target epsilon (Some pad) true
    = Ok (Scalar loss, Scalar nll_loss) ∧
    (0 <= loss)%R ∧ (0 <= nll_loss)%R.
Proof.
  intros Hidx HV Hneg Heps.
  destruct (adapter_label_smoothed_Ok lprobs target epsilon pad true Hidx HV)
    as (golden & nll_loss & Hr & Hred).
  destruct (Hred eq_refl) as [-> ->]. do 2 eexists. split; [done|].
  pose proof (nll_nonneg pad _ target Hneg).
  pose proof (smooth_nonneg pad _ target Hneg).
  split; [|done]. unfold label_smoothed.
  assert (0 < INR (ncols lprobs))%R by (apply lt_0_INR; lia).
  assert (0 <= epsilon / INR (ncols lprobs))%R
    by (unfold Rdiv; apply Rmult_le_pos; [lra|];
        left; by apply Rinv_0_lt_compat).
  nra.
Qed.

Lemma label_smoothed_nonneg_witness :
  ∃ loss nll_loss,
    label_smoothed_nll_loss (Mat 2 [[-1; -2]; [-3; -4]]%R) [1; 0]%Z 0.1
      (Some 0%Z) true
    = Ok (Scalar loss, Scalar nll_loss) ∧ (0 <= loss)%R.
Proof.
  destruct (label_smoothed_nonneg (Mat 2 [[-1; -2]; [-3; -4]]%R) [1; 0]%Z
              0.1 0%Z) as (loss & nll_loss & Hr & Hl & _).
  - repeat constructor; cbn; lia.
  - done.
  - cbn. solve_entries.
  - lra.
  - by exists loss, nll_loss.
Defined.

End adapter_label_smoothing.

(** ** Targets outside the vocabulary *)

Section out_of_range.
Import Torch Spec.

Lemma gather_not_indexable m target :
  ¬ indexable m target → gather m target = Raise RuntimeError.
Proof.
  intros Hn. destruct (gather m target) as [g|e] eqn:Eg.
  - by apply gather_inv in Eg as [? _].
  - by rewrite (gather_Raise _ _ _ Eg).
Qed.

(** X7. Both implementations of [label_smoothed_nll_loss] gather before
    they mask: when some target id, a padding id included, is not a column
    of its row, they raise [RuntimeError], whatever the smoothing, the
    ignored index and [reduce] are. *)
Theorem label_smoothed_needs_indexable lprobs target epsilon ignore_index
    reduce i row t :
  rows lprobs !! i = Some row →
  target !! i = Some t →
  ¬ in_range row t →
  Adapter.label_smoothed_nll_loss lprobs target epsilon ignore_index reduce
  = Raise RuntimeError ∧
  RecordTopk.label_smoothed_nll_loss lprobs target epsilon ignore_index reduce
  = Raise RuntimeError.
Proof.
  intros Hrow Ht Hn.
  assert (¬ indexable (rows lprobs) target) as Hidx.
  { intros Hidx. apply Hn.
    apply (Forall2_lookup_lr _ _ _ _ _ _ Hidx Hrow Ht). }
  unfold Adapter.label_smoothed_nll_loss,
    RecordTopk.label_smoothed_nll_loss.
  by rewrite (gather_not_indexable _ _ Hidx).
Qed.

(** X7 on a batch whose only target is the padding id -100. *)
Lemma label_smoothed_needs_indexable_witness :
  Adapter.label_smoothed_nll_loss (Mat 2 [[-1; -2]]%R) [-100]%Z 0.1
    (Some (-100)%Z) true
  = Raise RuntimeError.
Proof.
  apply (label_smoothed_needs_indexable (Mat 2 [[-1; -2]]%R) [-100]%Z
           0.1 (Some (-100)%Z) true 0 [-1; -2]%R (-100)%Z);
    [reflexivity|reflexivity|].
  intros [H _]. lia.
Defined.

End out_of_range.

(** ** The strategies of compute_loss and the state of forward *)

Section strategies.
Import Torch Fairseq Spec Adapter.

(** X8. With the strategy ['normal'] the teacher output plays no part:
    [compute_loss] returns what it returns without a teacher output, no
    ["KD_loss"] is recorded, and with reduction, on positive probabilities
    of the student, the loss is the label-smoothed cross-entropy of their
    natural logarithms and the second component the NLL. *)
Theorem normal_strategy_ignores_teacher self model output s teacher_output :
  indexable (rows (student_probs model output)) (flat_target s output) →
  ncols (student_probs model output) ≠ 0 →
  all_entries (λ x, 0 < x)%R (rows (student_probs model output)) →
  (∀ reduce strategy,
     compute_loss self model output s reduce teacher_output "normal"
     = compute_loss self model output s reduce None strategy) ∧
  compute_loss self model output s true teacher_output "normal"
  = Ok (Some (Scalar (label_smoothed (padding_idx self) (eps self)
                        (ncols (student_probs model output))
                        (ln_rows (rows (student_probs model output)))
                        (flat_target s output))),
        Some (Scalar (nll (padding_idx self)
                        (ln_rows (rows (student_probs model output)))
                        (flat_target s output))),
        ∅).
Proof.
  intros Hidx HV Hpos. split.
  - intros reduce strategy. unfold compute_loss.
    destruct teacher_output; [|done]. by rewrite decide_True.
  - unfold compute_loss. rewrite student_lprobs_ln.
    destruct (adapter_label_smoothed_Ok
                (Mat (ncols (student_probs model output))
                   (ln_rows (rows (student_probs model output))))
                (flat_target s output) (eps self) (padding_idx self) true
                (indexable_ln_rows _ _ Hidx) HV)
      as (golden & nll_loss & -> & Hred).
    destruct (Hred eq_refl) as [-> ->].
    destruct teacher_output; [by rewrite decide_True|done].
Qed.

Lemma normal_strategy_ignores_teacher_witness :
  compute_loss (Toy.criterion "normal" 1) (Toy.model Toy.student_out)
    (Toy.student_out, None) Toy.batch false (Some (Toy.teacher_out, None))
    "normal"
  = compute_loss (Toy.criterion "normal" 1) (Toy.model Toy.student_out)
      (Toy.student_out, None) Toy.batch false None "direct".
Proof.
  destruct (normal_strategy_ignores_teacher (Toy.criterion "normal" 1)
              (Toy.model Toy.student_out) (Toy.student_out, None) Toy.batch
              (Some (Toy.teacher_out, None))) as [Hsame _].
  - repeat constructor; cbn; lia.
  - cbn. lia.
  - rewrite toy_student_probs. solve_entries.
  - apply Hsame.
Defined.

(** What [forward] does to the criterion before and in the teacher pass. *)
Lemma teacher_pass_frame self s w :
  num (teacher_pass self s w).1.2 = num self ∧
  teacher_model (teacher_pass self s w).1.2 = teacher_model self ∧
  distil_strategy (teacher_pass self s w).1.2 = distil_strategy self.
Proof.
  unfold teacher_pass. destruct (teacher_model self) as [tm|] eqn:Htm;
    [|done].
  case_decide; [|done]. unfold no_grad.
  destruct (forwards tm (training tm) (net_in s)) as [t_out query]. cbn.
  by rewrite Htm.
Qed.

Lemma forward_state self checkpoint model s reduce w :
  num (forward self checkpoint model s reduce w).1.1 = S (num self) ∧
  teacher_model (forward self checkpoint model s reduce w).1.1
  = (if decide (num self = 0) then Some (eval checkpoint)
     else teacher_model self) ∧
  distil_strategy (forward self checkpoint model s reduce w).1.1
  = distil_strategy self.
Proof.
  unfold forward.
  match goal with |- context [teacher_pass ?c ?s' ?w'] =>
    pose proof (teacher_pass_frame c s' w') as (Hn & Ht & Hd);
    destruct (teacher_pass c s' w') as [[t_out self'] w1]
  end.
  cbn in *. rewrite Hn, Ht, Hd. by case_decide.
Qed.

(** X9. The teacher checkpoint is loaded on the first call only. Every call
    of [forward] counts, whether or not the loss could be computed; after a
    call on a fresh criterion the teacher is the loaded checkpoint in
    evaluation mode; and a further call keeps that teacher, whatever the
    checkpoint file holds by then. *)
Theorem teacher_loaded_once self checkpoint checkpoint' model model' s s'
    reduce reduce' w w' :
  num (forward self checkpoint model s reduce w).1.1 = S (num self) ∧
  (num self = 0 →
   teacher_model (forward self checkpoint model s reduce w).1.1
   = Some (eval checkpoint)) ∧
  teacher_model
    (forward (forward self checkpoint model s reduce w).1.1 checkpoint'
       model' s' reduce' w').1.1
  = teacher_model (forward self checkpoint model s reduce w).1.1 ∧
  num (forward (forward self checkpoint model s reduce w).1.1 checkpoint'
         model' s' reduce' w').1.1
  = S (S (num self)).
Proof.
  destruct (forward_state self checkpoint model s reduce w) as (Hn & Ht & _).
  destruct (forward_state (forward self checkpoint model s reduce w).1.1
              checkpoint' model' s' reduce' w') as (Hn' & Ht' & _).
  split_and!.
  - done.
  - intros H0. by rewrite Ht, decide_True.
  - rewrite Ht', decide_False; [done|]. rewrite Hn. lia.
  - by rewrite Hn', Hn.
Qed.

(** X10. With the strategy ['normal'] [forward] runs the student only: the
    teacher's network is not called, nothing is retrieved, and the
    retriever keeps its results. *)
Theorem normal_forward_runs_student_only self checkpoint model s reduce w :
  distil_strategy self = "normal" →
  calls (forward self checkpoint model s reduce w).1.2
  = calls w ++ [StudentForward (grad_enabled w)] ∧
  grad_enabled (forward self checkpoint model s reduce w).1.2
  = grad_enabled w ∧
  retriever (forward self checkpoint model s reduce w).1.1 = retriever self.
Proof.
  intros Hs. unfold forward, teacher_pass.
  set (self1 := set_num _ _).
  assert (distil_strategy self1 = "normal") as Hs1
    by (subst self1; case_decide; by cbn).
  assert (retriever self1 = retriever self) as Hr
    by (subst self1; case_decide; by cbn).
  rewrite Hs1. destruct (teacher_model self1); cbn; by rewrite ?Hr.
Qed.

Lemma normal_forward_runs_student_only_witness :
  calls (forward (Toy.criterion "normal" 0) (Toy.model Toy.teacher_out)
           (Toy.model Toy.student_out) Toy.batch true (World true [])).1.2
  = [StudentForward true].
Proof.
  apply (normal_forward_runs_student_only (Toy.criterion "normal" 0)
           (Toy.model Toy.teacher_out) (Toy.model Toy.student_out) Toy.batch
           true (World true [])).
  reflexivity.
Defined.

(** X11. A strategy that is none of ['normal'], ['direct'] and
    ['adapter_direct'] makes [forward] raise [AttributeError] as soon as a
    teacher is there (on a first call it always is): [compute_loss] leaves
    the loss [None], and [forward] reads its [data]. *)
Theorem unknown_strategy_raises self checkpoint model s reduce w :
  distil_strategy self ≠ "normal" →
  distil_strategy self ≠ "direct" →
  distil_strategy self ≠ "adapter_direct" →
  num self = 0 ∨ is_Some (teacher_model self) →
  (forward self checkpoint model s reduce w).2 = Raise AttributeError.
Proof.
  intros Hn Hd Ha Hteacher. unfold forward.
  set (self1 := set_num _ _).
  assert (∃ tm, teacher_model self1 = Some tm) as [tm Htm].
  { subst self1. case_decide; cbn; [by eexists|].
    destruct Hteacher as [?|[tm ?]]; [done|by eexists]. }
  assert (distil_strategy self1 = distil_strategy self) as Hs1
    by (subst self1; case_decide; by cbn).
  destruct (teacher_pass_direct self1 s (emit StudentForward w) tm Htm)
    as [self2 Hpass]; [by rewrite Hs1|].
  pose proof (teacher_pass_frame self1 s (emit StudentForward w))
    as (_ & _ & Hs2).
  rewrite Hpass in Hs2 |- *. cbn [fst snd] in Hs2. rewrite Hs1 in Hs2.
  cbn [snd]. unfold compute_loss. rewrite Hs2.
  by rewrite !decide_False by done.
Qed.

Lemma unknown_strategy_raises_witness :
  (forward (Toy.criterion "adapter" 0) (Toy.model Toy.teacher_out)
     (Toy.model Toy.student_out) Toy.batch true (World true [])).2
  = Raise AttributeError.
Proof.
  apply unknown_strategy_raises; [discriminate..|]. by left.
Defined.

End strategies.

(** ** The distillation target and the sign of the KL term *)

Section distillation.
Import Torch Fairseq Spec Adapter.

Lemma distil_target_Ok kNN_prob nmt_prob target :
  indexable kNN_prob target →
  same_shape kNN_prob nmt_prob →
  distil_target kNN_prob nmt_prob target = Ok (blend kNN_prob nmt_prob target).
Proof.
  intros Hidx Hs. unfold distil_target.
  pose proof (Forall2_length _ _ _ Hidx) as Hlen.
  pose proof (same_shape_length _ _ Hs) as Hlen'.
  rewrite (adapter_direct_mask_Ok _ _ Hidx). cbn [mbind result_bind].
  unfold scale_rows.
  rewrite !zip_exact_Ok by (rewrite length_zip_with; lia).
  cbn [mbind result_bind].
  rewrite mat_add_Ok by (by apply same_shape_scaled).
  by rewrite blend_rows_sum by lia.
Qed.

Lemma blend_lookup kNN_prob nmt_prob target i knn nmt t :
  kNN_prob !! i = Some knn → nmt_prob !! i = Some nmt → target !! i = Some t →
  blend kNN_prob nmt_prob target !! i
  = Some (blend_row (gold_mask knn t) knn nmt).
Proof.
  revert nmt_prob target i.
  induction kNN_prob as [|k kNN_prob IH]; intros [|n nmt_prob] [|t' target] i;
    try done.
  destruct i as [|i]; cbn; [by intros; simplify_eq|]. apply IH.
Qed.

Lemma length_blend kNN_prob nmt_prob target :
  length kNN_prob = length target → length nmt_prob = length target →
  length (blend kNN_prob nmt_prob target) = length target.
Proof.
  revert nmt_prob target.
  induction kNN_prob as [|k kNN_prob IH]; intros [|n nmt_prob] [|t target] ??;
    simplify_eq/=; [done|]. f_equal. by apply IH.
Qed.

Lemma sum_blend_row mk (knn nmt : list R) :
  length knn = length nmt →
  sum_list (blend_row mk knn nmt)
  = (0.5 * mk * sum_list knn + (1 - 0.5 * mk) * sum_list nmt)%R.
Proof.
  unfold blend_row, sum_list. revert nmt.
  induction knn as [|k knn IH]; intros [|n nmt] Hlen; simplify_eq/=; [lra|].
  rewrite IH by done. lra.
Qed.

Lemma gold_mask_cases row t : gold_mask row t = 0%R ∨ gold_mask row t = 1%R.
Proof. unfold gold_mask. case_decide; auto. Qed.

Lemma blend_row_distribution mk knn nmt :
  mk = 0%R ∨ mk = 1%R →
  length knn = length nmt →
  distribution knn → distribution nmt →
  distribution (blend_row mk knn nmt).
Proof.
  intros Hmk Hlen [Hk Hks] [Hn Hns]. split.
  - unfold blend_row. clear Hks Hns. revert nmt Hlen Hn.
    induction Hk as [|k knn Hk0 _ IH]; intros [|n nmt] Hlen Hn;
      simplify_eq/=; [constructor|].
    apply Forall_cons in Hn as [Hn0 Hn]. apply Forall_cons. split.
    + destruct Hmk as [-> | ->]; lra.
    + by apply IH.
  - rewrite sum_blend_row, Hks, Hns by done. lra.
Qed.

Lemma blend_row_off (knn nmt : list R) :
  length knn = length nmt → blend_row 0 knn nmt = nmt.
Proof.
  unfold blend_row. revert nmt.
  induction knn as [|k knn IH]; intros [|n nmt] Hlen; simplify_eq/=; [done|].
  rewrite IH by done. f_equal. lra.
Qed.

(** X12. The distillation target of the ['adapter_direct'] branch is again a
    matrix of probability rows, of the shape of its inputs, whenever the
    retrieval matrix and the teacher's matrix are. Where the gold entry of
    the retrieval row is not its maximum the target row is the teacher's
    row, untouched. *)
Theorem distil_target_is_distribution kNN_prob nmt_prob target :
  indexable kNN_prob target →
  same_shape kNN_prob nmt_prob →
  Forall distribution kNN_prob →
  Forall distribution nmt_prob →
  ∃ d,
    distil_target kNN_prob nmt_prob target = Ok d ∧
    same_shape kNN_prob d ∧
    Forall distribution d ∧
    (∀ i knn nmt t,
       kNN_prob !! i = Some knn → nmt_prob !! i = Some nmt →
       target !! i = Some t →
       ¬ Forall (λ y, y <= at_gold knn t)%R knn →
       d !! i = Some nmt).
Proof.
  intros Hidx Hs Hk Hn.
  pose proof (Forall2_length _ _ _ Hidx) as Hlen.
  pose proof (same_shape_length _ _ Hs) as Hlen'.
  rewrite (distil_target_Ok _ _ _ Hidx Hs). eexists. split; [done|].
  assert (∀ i row, blend kNN_prob nmt_prob target !! i = Some row →
            ∃ knn nmt t,
              kNN_prob !! i = Some knn ∧ nmt_prob !! i = Some nmt ∧
              target !! i = Some t ∧
              row = blend_row (gold_mask knn t) knn nmt) as Hrow.
  { intros i row Hi. apply lookup_lt_Some in Hi as Hlt.
    rewrite length_blend in Hlt by lia.
    destruct (lookup_lt_is_Some_2 kNN_prob i) as [knn Hknn]; [lia|].
    destruct (lookup_lt_is_Some_2 nmt_prob i) as [nmt Hnmt]; [lia|].
    destruct (lookup_lt_is_Some_2 target i) as [t Ht]; [lia|].
    rewrite (blend_lookup _ _ _ _ _ _ _ Hknn Hnmt Ht) in Hi. simplify_eq.
    by eauto 10. }
  split_and!.
  - apply Forall2_same_length_lookup_2; [rewrite length_blend; lia|].
    intros i knn row Hknn Hi.
    destruct (Hrow _ _ Hi) as (knn' & nmt & t & ? & Hnmt & _ & ->).
    simplify_eq. unfold blend_row. rewrite length_zip_with.
    assert (length knn = length nmt) as Hkn
      by apply (Forall2_lookup_lr _ _ _ _ _ _ Hs Hknn Hnmt).
    lia.
  - apply Forall_lookup_2. intros i row Hi.
    destruct (Hrow _ _ Hi) as (knn & nmt & t & Hknn & Hnmt & _ & ->).
    apply blend_row_distribution.
    + apply gold_mask_cases.
    + by apply (Forall2_lookup_lr _ _ _ _ _ _ Hs Hknn Hnmt).
    + apply (Forall_lookup_1 _ _ _ _ Hk Hknn).
    + apply (Forall_lookup_1 _ _ _ _ Hn Hnmt).
  - intros i knn nmt t Hknn Hnmt Ht Hnot.
    rewrite (blend_lookup _ _ _ _ _ _ _ Hknn Hnmt Ht).
    unfold gold_mask. rewrite decide_False by done.
    rewrite blend_row_off; [done|].
    by apply (Forall2_lookup_lr _ _ _ _ _ _ Hs Hknn Hnmt).
Qed.

Lemma distil_target_is_distribution_witness :
  ∃ d,
    distil_target [[0.25; 0.75]; [0.5; 0.5]]%R [[0.5; 0.5]; [0.75; 0.25]]%R
      [0; 1]%Z
    = Ok d ∧ Forall distribution d ∧ d !! 0 = Some [0.5; 0.5]%R.
Proof.
  destruct (distil_target_is_distribution
              [[0.25; 0.75]; [0.5; 0.5]]%R [[0.5; 0.5]; [0.75; 0.25]]%R
              [0; 1]%Z) as (d & Hd & _ & Hdist & Hoff).
  - repeat constructor; cbn; lia.
  - repeat constructor.
  - repeat (apply Forall_cons; split; [split; [solve_entries|cbn; lra]|]).
    constructor.
  - repeat (apply Forall_cons; split; [split; [solve_entries|cbn; lra]|]).
    constructor.
  - exists d. split; [exact Hd|]. split; [exact Hdist|].
    apply (Hoff 0 [0.25; 0.75]%R [0.5; 0.5]%R 0%Z); try reflexivity.
    intros Hall. apply Forall_cons in Hall as [_ Hall].
    apply Forall_cons in Hall as [Hle _]. unfold at_gold in Hle.
    change (Z.to_nat 0) with 0 in Hle. cbn in Hle. lra.
Defined.

(** The ['adapter_direct'] branch of [compute_loss] builds its target with
    the operations of [distil_target]. *)
Lemma compute_loss_distil_target self model output s reduce teacher_output :
  compute_loss self model output s reduce (Some teacher_output) "adapter_direct"
  = '(golden_loss, nll_loss) ←
      label_smoothed_nll_loss (student_lprobs model output)
        (flat_target s output) (eps self) (Some (padding_idx self)) reduce;
    nmt_prob ← get_teacher_probs_direct self teacher_output;
    kNN_prob ← get_teacher_probs self teacher_output;
    distil_lprobs ←
      distil_target (rows kNN_prob) (rows nmt_prob) (flat_target s output);
    KL_loss ←
      masked_kl (rows (student_lprobs model output)) distil_lprobs
        (eq_mask (flat_target s output) (padding_idx self));
    Ok (Some (tadd_scalar golden_loss (2.0 * KL_loss)%R), Some nll_loss,
        {[ "KD_loss" := Scalar KL_loss ]}).
Proof.
  unfold compute_loss. rewrite decide_False, decide_False, decide_True by done.
  destruct (label_smoothed_nll_loss _ _ _ _ _) as [[golden nll_loss]|e];
    [|done].
  cbn [mbind result_bind].
  destruct (get_teacher_probs_direct _ _) as [nmt_prob|e]; [|done].
  cbn [mbind result_bind].
  destruct (get_teacher_probs _ _) as [kNN_prob|e]; [|done].
  cbn [mbind result_bind]. unfold distil_target.
  destruct (adapter_direct_mask _ _) as [mask|e]; [|done].
  cbn [mbind result_bind].
  destruct (scale_rows _ (rows kNN_prob) mask) as [knn|e]; [|done].
  cbn [mbind result_bind].
  destruct (scale_rows _ (rows nmt_prob) mask) as [nmt|e]; [|done].
  done.
Qed.

(** The student's log-probabilities are the logarithms of its
    probabilities. *)
Lemma rows_student_lprobs model output :
  rows (student_lprobs model output)
  = map (map log) (rows (student_probs model output)) ∧
  ncols (student_lprobs model output) = ncols (student_probs model output).
Proof.
  unfold student_lprobs, student_probs, view2, t3_map. cbn. split; [|done].
  induction (items _) as [|x xs IH]; [done|].
  cbn. by rewrite map_app, IH.
Qed.

Lemma same_shape_map_log P : same_shape P (map (map log) P).
Proof. induction P; constructor; [by rewrite length_map|done]. Qed.

(** For a positive [p] and a non-negative [q]:
    q - p <= q * ln q - q * ln p. *)
Lemma kl_elem_gap p q :
  (0 < p)%R → (0 <= q)%R → (q - p <= kl_elem (ln p) q)%R.
Proof.
  intros Hp Hq. unfold kl_elem, xlogy. case_decide as Hq0.
  - subst q. lra.
  - pose proof (ln_gap q p ltac:(lra) Hp). lra.
Qed.

Lemma kl_row_gap (ps qs : list R) :
  length ps = length qs →
  Forall (λ x, 0 < x)%R ps → Forall (λ x, 0 <= x)%R qs →
  (sum_list qs - sum_list ps <= kl_row (map log ps) qs)%R.
Proof.
  intros Hlen Hps. revert qs Hlen. unfold kl_row, sum_list.
  induction Hps as [|p ps Hp _ IH]; intros [|q qs] Hlen Hqs; simplify_eq/=;
    [lra|].
  apply Forall_cons in Hqs as [Hq Hqs].
  specialize (IH qs Hlen Hqs). pose proof (kl_elem_gap p q Hp Hq).
  change (log p) with (ln p). lra.
Qed.

Lemma kl_row_diag (ps : list R) :
  Forall (λ x, 0 < x)%R ps → kl_row (map log ps) ps = 0%R.
Proof.
  unfold kl_row, sum_list. induction 1 as [|p ps Hp _ IH]; [done|].
  cbn. rewrite IH. unfold kl_elem, xlogy, log.
  rewrite decide_False by lra. lra.
Qed.

(** Gibbs' inequality, summed over the rows that are not padding. *)
Lemma masked_kl_sum_nonneg pad P Q target :
  same_shape P Q →
  all_entries (λ x, 0 < x)%R P →
  Forall distribution P → Forall distribution Q →
  (0 <= masked_kl_sum pad (map (map log) P) Q target)%R.
Proof.
  intros Hs. revert target.
  induction Hs as [|p q P Q Hpq _ IH]; intros target Hpos HP HQ; [cbn; lra|].
  destruct target as [|t target]; [cbn; lra|].
  apply Forall_cons in Hpos as [Hp Hpos].
  apply Forall_cons in HP as [[_ Hp1] HP].
  apply Forall_cons in HQ as [[Hq Hq1] HQ].
  specialize (IH target Hpos HP HQ). cbn [map masked_kl_sum].
  pose proof (kl_row_gap p q Hpq Hp Hq). case_decide; lra.
Qed.

Lemma masked_kl_sum_diag pad P target :
  all_entries (λ x, 0 < x)%R P →
  masked_kl_sum pad (map (map log) P) P target = 0%R.
Proof.
  intros Hpos. revert target.
  induction Hpos as [|p P Hp _ IH]; intros [|t target]; cbn; try done.
  rewrite IH, kl_row_diag by done. case_decide; lra.
Qed.

(** X13. With the strategy ['direct'], a student whose rows are positive
    probabilities and a teacher whose rows are probabilities, the loss is
    not negative (Gibbs' inequality, on the rows that are not padding), it
    is what is recorded as ["KD_loss"], and it is zero when the teacher's
    probabilities are the student's. *)
Theorem direct_loss_nonneg self model output s reduce teacher_output q :
  get_teacher_probs_direct self teacher_output = Ok q →
  ncols (student_probs model output) ≠ 0 →
  indexable (rows (student_probs model output)) (flat_target s output) →
  same_shape (rows (student_probs model output)) (rows q) →
  all_entries (λ x, 0 < x)%R (rows (student_probs model output)) →
  Forall distribution (rows (student_probs model output)) →
  Forall distribution (rows q) →
  ∃ kl nll_loss,
    compute_loss self model output s reduce (Some teacher_output) "direct"
    = Ok (Some (Scalar kl), Some nll_loss, {[ "KD_loss" := Scalar kl ]}) ∧
    (0 <= kl)%R ∧
    (rows q = rows (student_probs model output) → kl = 0%R).
Proof.
  intros Hq HV Hidx Hs Hpos HP HQ.
  destruct (rows_student_lprobs model output) as [Hrows Hcols].
  pose proof (same_shape_map_log (rows (student_probs model output))) as Hlog.
  assert (indexable (rows (student_lprobs model output))
            (flat_target s output)) as Hidx'.
  { rewrite Hrows. by eapply indexable_same_shape. }
  assert (same_shape (rows (student_lprobs model output)) (rows q)) as Hs'.
  { rewrite Hrows. by eapply same_shape_common. }
  unfold compute_loss. rewrite decide_False, decide_True by done.
  destruct (adapter_label_smoothed_Ok _ _ (eps self) (padding_idx self) reduce
              Hidx' ltac:(by rewrite Hcols))
    as (golden & nll_loss & -> & _).
  cbn [mbind result_bind]. rewrite Hq. cbn [mbind result_bind].
  rewrite masked_kl_Ok; [|done|by apply Forall2_length in Hidx'].
  cbn [mbind result_bind]. do 2 eexists. split; [done|]. rewrite Hrows.
  split.
  - by apply masked_kl_sum_nonneg.
  - intros ->. by apply masked_kl_sum_diag.
Qed.

(** X13 on the toy batch. *)
Lemma direct_loss_nonneg_witness :
  ∃ kl nll_loss,
    compute_loss (Toy.criterion "direct" 1) (Toy.model Toy.student_out)
      (Toy.student_out, None) Toy.batch true (Some (Toy.teacher_out, None))
      "direct"
    = Ok (Some (Scalar kl), Some nll_loss, {[ "KD_loss" := Scalar kl ]}) ∧
    (0 <= kl)%R.
Proof.
  destruct (direct_loss_nonneg (Toy.criterion "direct" 1)
              (Toy.model Toy.student_out) (Toy.student_out, None) Toy.batch
              true (Toy.teacher_out, None)
              (view2 (Toy.probs_of false Toy.teacher_out)))
    as (kl & nll_loss & Hloss & Hkl & _).
  - reflexivity.
  - cbn. lia.
  - repeat constructor; cbn; lia.
  - repeat constructor.
  - rewrite toy_student_probs. solve_entries.
  - rewrite toy_student_probs.
    repeat (apply Forall_cons; split;
            [split; [solve_entries|unfold sum_list; cbn; lra]|]).
    constructor.
  - rewrite toy_teacher_probs.
    repeat (apply Forall_cons; split;
            [split; [solve_entries|unfold sum_list; cbn; lra]|]).
    constructor.
  - by exists kl, nll_loss.
Defined.

Lemma blend_distribution kNN_prob nmt_prob target :
  same_shape kNN_prob nmt_prob →
  Forall distribution kNN_prob → Forall distribution nmt_prob →
  Forall distribution (blend kNN_prob nmt_prob target).
Proof.
  intros Hs. revert target.
  induction Hs as [|knn nmt kNN_prob nmt_prob Hlen _ IH];
    intros [|t target] Hk Hn; cbn; try constructor.
  - apply blend_row_distribution; [apply gold_mask_cases|done|..].
    + by apply Forall_cons in Hk as [? _].
    + by apply Forall_cons in Hn as [? _].
  - apply Forall_cons in Hk as [_ Hk]. apply Forall_cons in Hn as [_ Hn].
    by apply IH.
Qed.

Lemma le_sum_list (row : list R) x :
  Forall (λ y, 0 <= y)%R row → x ∈ row → (x <= sum_list row)%R.
Proof.
  unfold sum_list. induction 1 as [|y row Hy Hrow IH]; intros Hx.
  - by apply elem_of_nil in Hx.
  - assert (0 <= foldr Rplus 0 row)%R as Hsum.
    { clear -Hrow. induction Hrow as [|z row Hz _ IH]; cbn; lra. }
    apply elem_of_cons in Hx as [->|Hx]; cbn; [lra|].
    specialize (IH Hx). lra.
Qed.

(** The logarithm of a positive probability is not positive. *)
Lemma log_probs_nonpos P :
  all_entries (λ x, 0 < x)%R P → Forall distribution P →
  all_entries (λ x, x <= 0)%R (map (map log) P).
Proof.
  unfold all_entries. intros Hpos. induction Hpos as [|p P Hp _ IH];
    intros HP; cbn; [constructor|].
  apply Forall_cons in HP as [[Hnn H1] HP]. constructor; [|by apply IH].
  apply Forall_map, Forall_forall. intros x Hx.
  pose proof (le_sum_list p x Hnn Hx) as Hle. rewrite H1 in Hle.
  rewrite Forall_forall in Hp. specialize (Hp x Hx). unfold log.
  destruct (Req_dec_T x 1) as [->|Hne]; [rewrite ln_1; lra|].
  pose proof (ln_increasing x 1 Hp ltac:(lra)) as Hln.
  rewrite ln_1 in Hln. lra.
Qed.

Lemma label_smoothed_formula_nonneg pad epsilon V m target :
  V ≠ 0 → all_entries (λ x, x <= 0)%R m → (0 <= epsilon <= 1)%R →
  (0 <= label_smoothed pad epsilon V m target)%R.
Proof.
  intros HV Hneg Heps.
  pose proof (nll_nonneg pad _ target Hneg).
  pose proof (smooth_nonneg pad _ target Hneg).
  unfold label_smoothed.
  assert (0 < INR V)%R by (apply lt_0_INR; lia).
  assert (0 <= epsilon / INR V)%R
    by (unfold Rdiv; apply Rmult_le_pos; [lra|];
        left; by apply Rinv_0_lt_compat).
  nra.
Qed.

(** X14. With the strategy ['adapter_direct'], a student whose rows are
    positive probabilities, a teacher and a retrieval whose rows are
    probabilities and a label smoothing between 0 and 1, the distillation
    term recorded as ["KD_loss"] is not negative, the NLL is not negative,
    and the loss is at least twice the distillation term: the gold
    cross-entropy it adds is not negative either. *)
Theorem adapter_direct_loss_nonneg self model output s teacher_output
    nmt_prob kNN_prob :
  get_teacher_probs_direct self teacher_output = Ok nmt_prob →
  get_teacher_probs self teacher_output = Ok kNN_prob →
  ncols (student_probs model output) ≠ 0 →
  indexable (rows (student_probs model output)) (flat_target s output) →
  same_shape (rows (student_probs model output)) (rows nmt_prob) →
  same_shape (rows (student_probs model output)) (rows kNN_prob) →
  all_entries (λ x, 0 < x)%R (rows (student_probs model output)) →
  Forall distribution (rows (student_probs model output)) →
  Forall distribution (rows nmt_prob) →
  Forall distribution (rows kNN_prob) →
  (0 <= eps self <= 1)%R →
  ∃ loss nll_loss kd,
    compute_loss self model output s true (Some teacher_output)
      "adapter_direct"
    = Ok (Some (Scalar loss), Some (Scalar nll_loss),
          {[ "KD_loss" := Scalar kd ]}) ∧
    (0 <= kd)%R ∧ (0 <= nll_loss)%R ∧ (2 * kd <= loss)%R.
Proof.
  intros Hn Hk HV Hidx Hsn Hsk Hpos HP HN HK Heps.
  destruct (rows_student_lprobs model output) as [Hrows Hcols].
  pose proof (same_shape_map_log (rows (student_probs model output))) as Hlog.
  assert (indexable (rows (student_lprobs model output))
            (flat_target s output)) as Hidx'.
  { rewrite Hrows. by eapply indexable_same_shape. }
  pose proof (Forall2_length _ _ _ Hidx) as Hlen.
  pose proof (Forall2_length _ _ _ Hidx') as Hlen'.
  assert (same_shape (rows kNN_prob) (rows nmt_prob)) as Hkn
    by (by eapply same_shape_common).
  assert (same_shape (rows (student_lprobs model output))
            (blend (rows kNN_prob) (rows nmt_prob) (flat_target s output)))
    as Hsb.
  { rewrite Hrows.
    apply same_shape_blend; [by eapply same_shape_common..|].
    rewrite length_map. lia. }
  rewrite compute_loss_distil_target.
  destruct (adapter_label_smoothed_Ok _ _ (eps self) (padding_idx self) true
              Hidx' ltac:(by rewrite Hcols))
    as (golden & nll_loss & -> & Hred).
  destruct (Hred eq_refl) as [-> ->].
  cbn [mbind result_bind]. rewrite Hn, Hk. cbn [mbind result_bind].
  rewrite distil_target_Ok;
    [|apply (indexable_same_shape _ _ _ Hidx Hsk)|done].
  cbn [mbind result_bind].
  rewrite masked_kl_Ok by done. cbn [mbind result_bind tadd_scalar tmap].
  do 3 eexists. split; [done|].
  assert (all_entries (λ x, x <= 0)%R (rows (student_lprobs model output)))
    as Hneg by (rewrite Hrows; by apply log_probs_nonpos).
  pose proof (label_smoothed_formula_nonneg (padding_idx self) (eps self)
                (ncols (student_lprobs model output)) _ (flat_target s output)
                ltac:(by rewrite Hcols) Hneg Heps) as Hgold.
  split_and!.
  - rewrite Hrows. apply masked_kl_sum_nonneg; [|done|done|].
    + rewrite Hrows in Hsb.
      by eapply same_shape_common; [apply same_shape_sym|].
    + by apply blend_distribution.
  - by apply nll_nonneg.
  - lra.
Qed.

(** X14 on the toy batch. *)
Lemma adapter_direct_loss_nonneg_witness :
  ∃ loss nll_loss kd,
    compute_loss (Toy.criterion "adapter_direct" 1)
      (Toy.model Toy.student_out) (Toy.student_out, None) Toy.batch true
      (Some (Toy.teacher_out, None)) "adapter_direct"
    = Ok (Some (Scalar loss), Some (Scalar nll_loss),
          {[ "KD_loss" := Scalar kd ]}) ∧
    (0 <= kd)%R ∧ (2 * kd <= loss)%R.
Proof.
  destruct (adapter_direct_loss_nonneg (Toy.criterion "adapter_direct" 1)
              (Toy.model Toy.student_out) (Toy.student_out, None) Toy.batch
              (Toy.teacher_out, None)
              (view2 (Toy.probs_of false Toy.teacher_out))
              (view2 Toy.knn_out))
    as (loss & nll_loss & kd & Hloss & Hkd & _ & Hle).
  - reflexivity.
  - reflexivity.
  - cbn. lia.
  - repeat constructor; cbn; lia.
  - repeat constructor.
  - repeat constructor.
  - rewrite toy_student_probs. solve_entries.
  - rewrite toy_student_probs.
    repeat (apply Forall_cons; split;
            [split; [solve_entries|unfold sum_list; cbn; lra]|]).
    constructor.
  - rewrite toy_teacher_probs.
    repeat (apply Forall_cons; split;
            [split; [solve_entries|unfold sum_list; cbn; lra]|]).
    constructor.
  - change (rows (view2 Toy.knn_out))
      with [[0.25; 0.75]; [0.5; 0.5]]%R.
    repeat (apply Forall_cons; split;
            [split; [solve_entries|unfold sum_list; cbn; lra]|]).
    constructor.
  - cbn. lra.
  - by exists loss, nll_loss, kd.
Defined.

End distillation.

(** ** The label-smoothed loss of record_topk_predictions.py *)

Section record_topk_loss.
Import Torch Fairseq Spec RecordTopk.

(** Up to the two logarithms every step of [label_smoothed_nll_loss]
    succeeds. *)
Lemma record_topk_label_smoothed_steps lprobs target epsilon pad reduce :
  indexable (rows lprobs) target →
  ncols lprobs ≠ 1 →
  ∃ loss nll_loss,
    label_smoothed_nll_loss lprobs target epsilon (Some pad) reduce
    = (log_keep ← Py.log (1 - epsilon)%R;
       log_eps_i ← Py.log (epsilon / IZR (Z.of_nat (ncols lprobs) - 1))%R;
       Ok (tadd_scalar loss
             ((1 - epsilon) * log_keep
              + epsilon / IZR (Z.of_nat (ncols lprobs) - 1) * log_eps_i
                * IZR (Z.of_nat (ncols lprobs) - 1))%R,
           nll_loss)).
Proof.
  intros Hidx HV. unfold label_smoothed_nll_loss.
  rewrite (gather_indexable _ _ Hidx). cbn [mbind result_bind].
  pose proof (Forall2_length _ _ _ Hidx) as Hlen.
  rewrite !masked_fill_Ok
    by (rewrite length_eq_mask, ?length_fmap, ?length_zip_with; lia).
  cbn [mbind result_bind].
  rewrite py_div_nonzero by lia. cbn [mbind result_bind].
  destruct reduce.
  - cbn [tadd tscale tmap mbind result_bind]. by eauto.
  - rewrite (tadd_same_shape _ _ Column) by
      (eauto; rewrite !length_zip_with, !length_fmap, length_zip_with,
         length_eq_mask; lia).
    cbn [mbind result_bind]. by eauto.
Qed.

(** X15. On a batch whose targets index their rows, over at least two
    classes, [label_smoothed_nll_loss] of record_topk_predictions.py
    returns exactly when the label smoothing lies strictly between 0 and 1;
    for every other value (the default 0.0 among them) it raises
    [ValueError]. *)
Theorem record_topk_label_smoothed_domain lprobs target epsilon pad reduce :
  indexable (rows lprobs) target →
  2 ≤ ncols lprobs →
  ((0 < epsilon < 1)%R →
   ∃ loss nll_loss,
     label_smoothed_nll_loss lprobs target epsilon (Some pad) reduce
     = Ok (loss, nll_loss)) ∧
  (¬ (0 < epsilon < 1)%R →
   label_smoothed_nll_loss lprobs target epsilon (Some pad) reduce
   = Raise ValueError).
Proof.
  intros Hidx HV. split.
  - intros Heps. by apply record_topk_label_smoothed_Ok.
  - intros Heps.
    destruct (record_topk_label_smoothed_steps lprobs target epsilon pad
                reduce Hidx ltac:(lia)) as (loss & nll_loss & ->).
    destruct (decide (epsilon < 1)%R) as [Hlt|Hge].
    + rewrite (py_log_pos (1 - epsilon)) by lra. cbn [mbind result_bind].
      rewrite py_log_nonpos; [done|].
      assert (0 < IZR (Z.of_nat (ncols lprobs) - 1))%R as HK
        by (apply IZR_lt; lia).
      assert (epsilon <= 0)%R as Hle by lra.
      unfold Rdiv. apply Rinv_0_lt_compat in HK. nra.
    + by rewrite (py_log_nonpos (1 - epsilon)) by lra.
Qed.

Lemma record_topk_label_smoothed_domain_witness :
  label_smoothed_nll_loss (Mat 2 [[-1; -2]; [-3; -4]]%R) [1; 0]%Z 1
    (Some 0%Z) true
  = Raise ValueError.
Proof.
  apply (record_topk_label_smoothed_domain (Mat 2 [[-1; -2]; [-3; -4]]%R)
           [1; 0]%Z 1 0%Z true).
  - repeat constructor; cbn; lia.
  - cbn. lia.
  - lra.
Defined.

Lemma sum_list_add_const (xs : list R) c :
  sum_list ((λ x, x + c)%R <$> xs) = (sum_list xs + INR (length xs) * c)%R.
Proof.
  unfold sum_list. induction xs as [|x xs IH]; [cbn; lra|].
  rewrite fmap_cons. cbn [foldr length]. rewrite S_INR, IH. lra.
Qed.

Lemma smoothing_entropy_neg epsilon V :
  2 ≤ V → (0 < epsilon < 1)%R → (smoothing_entropy epsilon V < 0)%R.
Proof.
  intros HV Heps. unfold smoothing_entropy.
  assert (1 <= IZR (Z.of_nat V - 1))%R as HK by (apply IZR_le; lia).
  set (K := IZR (Z.of_nat V - 1)) in *.
  assert (epsilon / K * K = epsilon)%R as HeK by (field; lra).
  assert (0 < epsilon / K)%R as Hpos by (apply Rdiv_lt_0_compat; lra).
  assert (epsilon / K < 1)%R as Hlt1 by nra.
  pose proof (ln_increasing (1 - epsilon) 1 ltac:(lra) ltac:(lra)) as H1.
  pose proof (ln_increasing (epsilon / K) 1 Hpos Hlt1) as H2.
  rewrite ln_1 in H1, H2.
  replace (epsilon / K * ln (epsilon / K) * K)%R
    with (epsilon * ln (epsilon / K))%R
    by (rewrite <- HeK at 1; ring).
  nra.
Qed.

(** X16. The entropy constant is added to the loss after the padding mask
    and after the reduction. Without reduction every padding position
    carries the constant, which is negative, in the loss (and zero in the
    NLL); with reduction the constant is counted once, so the entries of
    the unreduced loss add up to the reduced loss plus the constant times
    the number of targets less one. *)
Theorem record_topk_entropy_constant lprobs target epsilon pad :
  indexable (rows lprobs) target →
  2 ≤ ncols lprobs →
  (0 < epsilon < 1)%R →
  ∃ losses nlls total,
    label_smoothed_nll_loss lprobs target epsilon (Some pad) false
    = Ok (Column losses, Column nlls) ∧
    label_smoothed_nll_loss lprobs target epsilon (Some pad) true
    = Ok (Scalar total, Scalar (sum_list nlls)) ∧
    length losses = length target ∧ length nlls = length target ∧
    (∀ i, target !! i = Some pad →
          losses !! i = Some (smoothing_entropy epsilon (ncols lprobs)) ∧
          nlls !! i = Some 0%R) ∧
    (smoothing_entropy epsilon (ncols lprobs) < 0)%R ∧
    sum_list losses
    = (total + (INR (length target) - 1)
               * smoothing_entropy epsilon (ncols lprobs))%R.
Proof.
  intros Hidx HV Heps. unfold label_smoothed_nll_loss.
  rewrite (gather_indexable _ _ Hidx). cbn [mbind result_bind].
  pose proof (Forall2_length _ _ _ Hidx) as Hlen.
  rewrite !masked_fill_Ok
    by (rewrite length_eq_mask, ?length_fmap, ?length_zip_with; lia).
  cbn [mbind result_bind].
  rewrite py_div_nonzero by lia. cbn [mbind result_bind].
  assert (0 < epsilon / IZR (Z.of_nat (ncols lprobs) - 1))%R as Hpos.
  { apply Rdiv_lt_0_compat; [lra|]. apply IZR_lt. lia. }
  set (n := zip_with _ (Ropp <$> _) _). set (sm := zip_with _ (_ <$> rows _) _).
  assert (length n = length target) as Hn.
  { subst n. rewrite length_zip_with, length_eq_mask, length_fmap,
      length_zip_with. lia. }
  assert (length sm = length target) as Hsm.
  { subst sm. rewrite length_zip_with, length_eq_mask, length_fmap. lia. }
  rewrite (tadd_same_shape _ _ Column) by (eauto; lia).
  cbn [mbind result_bind tadd tscale tmap].
  rewrite (py_log_pos (1 - epsilon)) by lra. cbn [mbind result_bind].
  rewrite (py_log_pos _ Hpos). cbn [mbind result_bind tadd_scalar tmap].
  fold (smoothing_entropy epsilon (ncols lprobs)).
  do 3 eexists. split; [done|]. split; [done|]. split_and!.
  - rewrite length_fmap, length_zip_with, !length_fmap. lia.
  - done.
  - intros i Hi.
    assert (n !! i = Some 0%R) as Hni.
    { subst n. unfold eq_mask. rewrite lookup_zip_with, !list_lookup_fmap, Hi.
      destruct (lookup_lt_is_Some_2 (zip_with at_gold (rows lprobs) target) i)
        as [v ->]; [rewrite length_zip_with; apply lookup_lt_Some in Hi; lia|].
      cbn. by rewrite bool_decide_eq_true_2. }
    assert (sm !! i = Some 0%R) as Hsi.
    { subst sm. unfold eq_mask. rewrite lookup_zip_with, !list_lookup_fmap, Hi.
      destruct (lookup_lt_is_Some_2 (rows lprobs) i)
        as [v ->]; [apply lookup_lt_Some in Hi; lia|].
      cbn. by rewrite bool_decide_eq_true_2. }
    split; [|done].
    rewrite list_lookup_fmap, lookup_zip_with, !list_lookup_fmap, Hni, Hsi.
    cbn. f_equal. lra.
  - by apply smoothing_entropy_neg.
  - rewrite sum_list_add_const, sum_list_linear by lia.
    rewrite length_zip_with, !length_fmap, Hn, Hsm, Nat.min_id. lra.
Qed.

Lemma record_topk_entropy_constant_witness :
  ∃ losses nlls,
    label_smoothed_nll_loss (Mat 2 [[-1; -2]; [-3; -4]]%R) [1; 0]%Z 0.1
      (Some 0%Z) false
    = Ok (Column losses, Column nlls) ∧
    losses !! 1 = Some (smoothing_entropy 0.1 2).
Proof.
  destruct (record_topk_entropy_constant (Mat 2 [[-1; -2]; [-3; -4]]%R)
              [1; 0]%Z 0.1 0%Z) as (losses & nlls & total & Hr & _ & _ & _ &
                                    Hpad & _).
  - repeat constructor; cbn; lia.
  - cbn. lia.
  - lra.
  - exists losses, nlls. split; [exact Hr|]. by apply (Hpad 1).
Defined.

End record_topk_loss.

(** ** forward of record_topk_predictions.py *)

Section record_topk_forward.
Import Torch Fairseq Spec RecordTopk.

(** X17. [forward] touches the file system only once the loss and both
    top-k selections are there: without a teacher, when the loss raises,
    or when [torch.topk] raises on the teacher's or the student's logits,
    no directory is made and no file is created or written. *)
Theorem forward_leaves_files self topk_row model s teacher_model reduce f0 :
  teacher_model = None ∨
  (∃ e, compute_loss self (eval model) (run (eval model) s) s reduce
        = Raise e) ∨
  (∃ teacher e,
     teacher_model = Some teacher ∧
     (topk_indices topk_row (topk self) (run (eval teacher) s).1 = Raise e ∨
      topk_indices topk_row (topk self) (run (eval model) s).1 = Raise e)) →
  (forward self topk_row model s teacher_model reduce f0).1 = f0.
Proof.
  intros Hcase. unfold forward.
  destruct (compute_loss _ _ _ _ _) as [[mle_loss nll_loss]|e0] eqn:Hloss;
    [|done].
  destruct Hcase as [->|[[e He]|(teacher & e & -> & Htopk)]]; [done|done|].
  cbn [fmap option_fmap option_map]. unfold dump_predictions, Os.bind, Os.lift.
  destruct Htopk as [->| Hstu]; [done|].
  destruct (topk_indices _ _ (run (eval teacher) s).1); [|done].
  by rewrite Hstu.
Qed.

(** X17 on the toy batch, with the default [topk] of -1. *)
Lemma forward_leaves_files_witness :
  (forward (Criterion false 0.1 Toy.pad "out" (-1) 0 false) Toy.first_k
     (Toy.model Toy.student_out) Toy.batch (Some (Toy.model Toy.teacher_out))
     true Toy.empty_fs).1
  = Toy.empty_fs.
Proof.
  apply forward_leaves_files. right. right.
  exists (Toy.model Toy.teacher_out), RuntimeError. split; [done|].
  left. reflexivity.
Defined.

(** X18. Without a teacher [forward] switches the model to evaluation,
    runs its encoder and decoder in that mode, and returns the
    cross-entropy itself as the loss: ["loss"] and ["mle_loss"] report the
    same tensor, the two distillation entries are zero, and the file system
    is as it was. *)
Theorem forward_without_teacher self topk_row model s reduce f0 mle_loss
    nll_loss :
  compute_loss self (eval model) (run (eval model) s) s reduce
  = Ok (mle_loss, nll_loss) →
  report_accuracy self = false →
  ∃ logging,
    forward self topk_row model s None reduce f0
    = (f0, (eval model, None,
            Ok (mle_loss,
                if sentence_avg self then Z.of_nat (length (target s))
                else ntokens s,
                logging))) ∧
    logging !! "loss" = Some (LTensor mle_loss) ∧
    logging !! "mle_loss" = Some (LTensor mle_loss) ∧
    logging !! "nll_loss" = Some (LTensor nll_loss) ∧
    (∃ zeros, logging !! "kd_loss1" = Some (LTensor zeros) ∧
              logging !! "kd_loss2" = Some (LTensor zeros) ∧
              all_zero zeros) ∧
    logging !! "n_correct" = None.
Proof.
  intros Hloss Hrep. unfold forward. rewrite Hloss.
  cbn [fmap option_fmap option_map mbind result_bind]. rewrite Hrep.
  eexists. split; [done|]. unfold logging_output.
  split_and!; try by simplify_map_eq.
  exists (tmap (λ _, 0%R) mle_loss). split_and!; try by simplify_map_eq.
  destruct mle_loss as [x|xs|xs]; cbn; [done|..];
    apply Forall_fmap, Forall_forall; by intros.
Qed.

Lemma forward_without_teacher_witness :
  ∃ loss sample_size logging,
    forward Toy.recorder Toy.first_k (Toy.model Toy.student_out) Toy.batch
      None true Toy.empty_fs
    = (Toy.empty_fs,
       (eval (Toy.model Toy.student_out), None,
        Ok (loss, sample_size, logging))) ∧
    logging !! "loss" = logging !! "mle_loss".
Proof.
  destruct toy_recorder_loss as (mle_loss & nll_loss & Hloss).
  destruct (forward_without_teacher Toy.recorder Toy.first_k
              (Toy.model Toy.student_out) Toy.batch true Toy.empty_fs
              mle_loss nll_loss Hloss eq_refl)
    as (logging & Hf & Hl & Hm & _).
  exists mle_loss, 1%Z, logging. split; [exact Hf|]. by rewrite Hl, Hm.
Defined.

(** The dump does not read [report_accuracy]. *)
Lemma dump_predictions_report sentence_avg eps padding_idx result_path topk
    ignore_prefix_size b topk_row tl sl target :
  dump_predictions
    (Criterion sentence_avg eps padding_idx result_path topk
       ignore_prefix_size b) topk_row tl sl target
  = dump_predictions
      (Criterion sentence_avg eps padding_idx result_path topk
         ignore_prefix_size false) topk_row tl sl target.
Proof. reflexivity. Qed.

(** X19. With [report_accuracy] on, [forward] never returns: it reads the
    name [net_output], which it never binds. The error comes last: the
    predictions have been dumped by then, so the file system is the one the
    same call leaves with [report_accuracy] off, and where that call
    returns this one raises [NameError]. *)
Theorem report_accuracy_never_returns sentence_avg eps padding_idx result_path
    topk ignore_prefix_size topk_row model s teacher_model reduce f0 :
  (∃ e,
     (forward (Criterion sentence_avg eps padding_idx result_path topk
                 ignore_prefix_size true)
        topk_row model s teacher_model reduce f0).2.2 = Raise e) ∧
  (forward (Criterion sentence_avg eps padding_idx result_path topk
              ignore_prefix_size true)
     topk_row model s teacher_model reduce f0).1
  = (forward (Criterion sentence_avg eps padding_idx result_path topk
                ignore_prefix_size false)
       topk_row model s teacher_model reduce f0).1 ∧
  (∀ r,
     (forward (Criterion sentence_avg eps padding_idx result_path topk
                 ignore_prefix_size false)
        topk_row model s teacher_model reduce f0).2.2 = Ok r →
     (forward (Criterion sentence_avg eps padding_idx result_path topk
                 ignore_prefix_size true)
        topk_row model s teacher_model reduce f0).2.2 = Raise NameError).
Proof.
  unfold forward, compute_loss, get_lprobs_and_target.
  cbn [RecordTopk.eps RecordTopk.padding_idx RecordTopk.result_path
       RecordTopk.topk RecordTopk.ignore_prefix_size
       RecordTopk.report_accuracy RecordTopk.sentence_avg].
  destruct (decide (0 < ignore_prefix_size)%Z);
    (destruct (label_smoothed_nll_loss _ _ _ _ _)
       as [[mle_loss nll_loss]|e];
     [|split; [by eexists|split; [done|by intros]]]);
    (destruct teacher_model as [teacher|];
     cbn [fmap option_fmap option_map];
     [|split; [by eexists|split; [done|by intros]]]);
    rewrite (dump_predictions_report _ _ _ _ _ _ true);
    (destruct (dump_predictions _ _ _ _ _ _) as [f1 [[]|e]];
     cbn [mbind result_bind fst snd];
     (split; [by eexists|split; [done|by intros]])).
Qed.


(** X23. With the default [result_path], the empty string, the dump cannot
    take place: [os.path.exists('')] is false and [os.mkdir('')] raises
    [FileNotFoundError]. So [forward] with a teacher raises it, once the
    loss and the top-k selections are there, and writes nothing. *)
Theorem default_result_path_raises self topk_row model teacher s reduce f0
    mle_loss nll_loss tea stu :
  result_path self = "" →
  Os.path_exists "" f0 = false →
  compute_loss self (eval model) (run (eval model) s) s reduce
  = Ok (mle_loss, nll_loss) →
  topk_indices topk_row (topk self) (run (eval teacher) s).1 = Ok tea →
  topk_indices topk_row (topk self) (run (eval model) s).1 = Ok stu →
  forward self topk_row model s (Some teacher) reduce f0
  = (f0, (eval model, Some (eval teacher), Raise FileNotFoundError)).
Proof.
  intros Hpath Hex Hloss Htea Hstu. unfold forward. rewrite Hloss.
  cbn [fmap option_fmap option_map].
  unfold dump_predictions, Os.bind, Os.lift. rewrite Htea, Hstu, Hpath, Hex.
  unfold Os.mkdir. by rewrite decide_True.
Qed.

Lemma default_result_path_raises_witness :
  forward (Criterion false 0.1 Toy.pad "" 1 0 false) Toy.first_k
    (Toy.model Toy.student_out) Toy.batch (Some (Toy.model Toy.teacher_out))
    true Toy.empty_fs
  = (Toy.empty_fs,
     (eval (Toy.model Toy.student_out),
      Some (eval (Toy.model Toy.teacher_out)), Raise FileNotFoundError)).
Proof.
  destruct toy_recorder_loss as (mle_loss & nll_loss & Hloss).
  apply (default_result_path_raises (Criterion false 0.1 Toy.pad "" 1 0 false)
           Toy.first_k (Toy.model Toy.student_out)
           (Toy.model Toy.teacher_out) Toy.batch true Toy.empty_fs
           mle_loss nll_loss [[[0]; [0]]]%Z [[[0]; [0]]]%Z);
    [reflexivity|reflexivity|exact Hloss|reflexivity|reflexivity].
Defined.

End record_topk_forward.

(** ** compute_accuracy *)

Section record_topk_accuracy.
Import Torch Fairseq Spec RecordTopk.

Lemma masked_select_Ok {A} (xs : list A) mask :
  length xs = length mask → masked_select xs mask = Ok (select_by xs mask).
Proof.
  revert mask. induction xs as [|x xs IH]; intros [|b mask] Hlen;
    simplify_eq/=; [done|].
  rewrite IH by done. by destruct b.
Qed.

Lemma length_select_by {A B} (xs : list A) (ys : list B) mask :
  length xs = length mask → length ys = length mask →
  length (select_by xs mask) = length (select_by ys mask).
Proof.
  revert ys mask. induction xs as [|x xs IH]; intros [|y ys] [|b mask] ??;
    simplify_eq/=; [done|].
  destruct b; cbn; [f_equal|]; by apply IH.
Qed.

Lemma count_hits pad (preds target : list Z) :
  length preds = length target →
  count_true
    (zip_with (λ a b : Z, bool_decide (a = b))
       (select_by preds ((λ t, bool_decide (t ≠ pad)) <$> target))
       (select_by target ((λ t, bool_decide (t ≠ pad)) <$> target)))
  = Z.of_nat (correct_count pad preds target).
Proof.
  unfold count_true. intros Hlen. f_equal. revert target Hlen.
  induction preds as [|p preds IH]; intros [|t target] Hlen; simplify_eq/=;
    [done|].
  specialize (IH target Hlen).
  case_bool_decide as Ht; cbn [zip_with].
  - case_bool_decide as Hp.
    + rewrite filter_cons_True by done. rewrite decide_True by done.
      cbn. by rewrite IH.
    + rewrite filter_cons_False by done. rewrite decide_False by tauto.
      by rewrite IH.
  - rewrite decide_False by tauto. by rewrite IH.
Qed.

Lemma count_mask pad (target : list Z) :
  count_true ((λ t, bool_decide (t ≠ pad)) <$> target)
  = Z.of_nat (nonpad_count pad target).
Proof.
  unfold count_true, nonpad_count. f_equal.
  induction target as [|t target IH]; [done|].
  rewrite fmap_cons. case_bool_decide as Ht.
  - rewrite !filter_cons_True by done. cbn. by rewrite IH.
  - rewrite !filter_cons_False by (done || by intros ?). by rewrite IH.
Qed.

Lemma correct_le_nonpad pad (preds target : list Z) :
  correct_count pad preds target ≤ nonpad_count pad target
  ∧ nonpad_count pad target ≤ length target.
Proof.
  unfold nonpad_count. split; [|apply length_filter].
  revert target. induction preds as [|p preds IH]; intros [|t target];
    cbn [correct_count]; try lia.
  specialize (IH target). destruct (decide (t ≠ pad)) as [Ht|Ht].
  - rewrite filter_cons_True by done. cbn. case_decide; lia.
  - rewrite filter_cons_False by done. rewrite decide_False by tauto. lia.
Qed.

(** X20. [compute_accuracy] counts: [total] is the number of targets that
    are not the padding index, and [n_correct] the number of those whose
    predicted id is the target. So 0 <= n_correct <= total, and [total] is
    at most the number of targets. It returns when every row has a
    prediction and there are as many rows as targets. *)
Theorem compute_accuracy_counts self argmax model output s preds :
  mapM argmax (rows (get_lprobs_and_target self model output s).1)
  = Ok preds →
  length (rows (get_lprobs_and_target self model output s).1)
  = length (get_lprobs_and_target self model output s).2 →
  compute_accuracy self argmax model output s
  = Ok (Z.of_nat (correct_count (padding_idx self) preds
                    (get_lprobs_and_target self model output s).2),
        Z.of_nat (nonpad_count (padding_idx self)
                    (get_lprobs_and_target self model output s).2)) ∧
  correct_count (padding_idx self) preds
    (get_lprobs_and_target self model output s).2
  ≤ nonpad_count (padding_idx self)
      (get_lprobs_and_target self model output s).2 ∧
  nonpad_count (padding_idx self)
    (get_lprobs_and_target self model output s).2
  ≤ length (get_lprobs_and_target self model output s).2.
Proof.
  unfold compute_accuracy.
  destruct (get_lprobs_and_target self model output s) as [lprobs target].
  cbn [fst snd]. intros Hpreds Hlen.
  pose proof (mapM_result_length _ _ _ Hpreds) as Hlp.
  split; [|apply correct_le_nonpad].
  rewrite Hpreds. cbn [mbind result_bind].
  rewrite !masked_select_Ok by (rewrite length_fmap; lia).
  cbn [mbind result_bind].
  rewrite zip_exact_Ok
    by (apply length_select_by; rewrite length_fmap; lia).
  cbn [mbind result_bind].
  by rewrite count_hits, count_mask by lia.
Qed.

(** X20 on the toy batch: one target that is not padding, predicted. *)
Lemma compute_accuracy_counts_witness :
  compute_accuracy Toy.recorder Toy.first_index (Toy.model Toy.student_out)
    (Toy.student_out, None) Toy.batch
  = Ok (1%Z, 1%Z).
Proof.
  apply (compute_accuracy_counts Toy.recorder Toy.first_index
           (Toy.model Toy.student_out) (Toy.student_out, None) Toy.batch
           [0; 0]%Z); reflexivity.
Defined.

End record_topk_accuracy.

(** ** The first call of forward in label_smoothed_cross_entropy-step2.py *)

Section first_call.
Import Torch Fairseq Spec Adapter.

(** X21. The first call of [forward] with the strategy ['direct'] distils
    from the checkpoint it loads: the teacher is run in evaluation mode on
    the batch, the retrieval on its query is stored in the retriever, and
    the loss is the padding-masked KL divergence (the sum over the
    vocabulary of q_j * ln (q_j / p_j)) of the probabilities of that teacher
    output from the student's, which are positive. The log reports this
    loss under ["loss"] and ["KD_loss"] alike, and the NLL under
    ["nll_loss"]. *)
Theorem first_forward_direct self checkpoint model s reduce w :
  num self = 0 →
  distil_strategy self = "direct" →
  ncols (student_probs model (call model (training model) (net_in s))) ≠ 0 →
  indexable
    (rows (student_probs model (call model (training model) (net_in s))))
    (flat_target s (call model (training model) (net_in s))) →
  same_shape
    (rows (student_probs model (call model (training model) (net_in s))))
    (rows (view2 (get_normalized_probs checkpoint
                    (forwards checkpoint false (net_in s)).1 false))) →
  all_entries (λ x, 0 < x)%R
    (rows (student_probs model (call model (training model) (net_in s)))) →
  all_entries (λ x, 0 <= x)%R
    (rows (view2 (get_normalized_probs checkpoint
                    (forwards checkpoint false (net_in s)).1 false))) →
  results (retriever (forward self checkpoint model s reduce w).1.1)
  = Some (retrieve (retriever self)
            (forwards checkpoint false (net_in s)).2) ∧
  ∃ nll_loss logging,
    (forward self checkpoint model s reduce w).2
    = Ok (Scalar
            (masked_kl_divergence (padding_idx self)
               (rows (student_probs model
                        (call model (training model) (net_in s))))
               (rows (view2 (get_normalized_probs checkpoint
                               (forwards checkpoint false (net_in s)).1
                               false)))
               (flat_target s (call model (training model) (net_in s)))),
          if sentence_avg self then Z.of_nat (length (target s))
          else ntokens s,
          logging) ∧
    logging !! "loss"
    = Some (LTensor
              (Scalar
                 (masked_kl_divergence (padding_idx self)
                    (rows (student_probs model
                             (call model (training model) (net_in s))))
                    (rows (view2 (get_normalized_probs checkpoint
                                    (forwards checkpoint false (net_in s)).1
                                    false)))
                    (flat_target s
                       (call model (training model) (net_in s)))))) ∧
    logging !! "loss" = logging !! "KD_loss" ∧
    logging !! "nll_loss" = Some (LTensor nll_loss).
Proof.
  intros Hnum Hs HV Hidx Hshape Hpos Hnn. unfold forward.
  rewrite decide_True by done.
  unfold teacher_pass.
  cbn [teacher_model set_num set_teacher_model distil_strategy].
  rewrite Hs. rewrite decide_True by done. unfold no_grad.
  cbn [eval training forwards].
  destruct (forwards checkpoint false (net_in s)) as [t_out query] eqn:Hfw.
  cbn [fst snd] in *. split; [done|].
  set (self' := set_results _ _).
  assert (distil_strategy self' = "direct") as Hs' by done.
  assert (padding_idx self' = padding_idx self) as Hpad by done.
  assert (sentence_avg self' = sentence_avg self) as Hsa by done.
  assert (teacher_model self' = Some (eval checkpoint)) as Htm by done.
  rewrite Hs', Hsa. unfold compute_loss.
  rewrite decide_False, decide_True by done.
  rewrite student_lprobs_ln.
  destruct (adapter_label_smoothed_Ok
              (Mat (ncols (student_probs model
                             (call model (training model) (net_in s))))
                 (ln_rows (rows (student_probs model
                                   (call model (training model) (net_in s))))))
              (flat_target s (call model (training model) (net_in s)))
              (eps self') (padding_idx self') reduce
              (indexable_ln_rows _ _ Hidx) HV)
    as (golden & nll_loss & -> & _).
  cbn [mbind result_bind rows]. unfold get_teacher_probs_direct. rewrite Htm.
  cbn [mbind result_bind eval get_normalized_probs].
  rewrite masked_kl_Ok;
    [|by apply same_shape_ln_rows
     |unfold ln_rows; rewrite length_map; by apply Forall2_length in Hidx].
  rewrite masked_kl_sum_divergence by done.
  cbn [mbind result_bind]. rewrite Hpad.
  exists nll_loss. eexists. split; [done|].
  unfold logging_output. split_and!; by simplify_map_eq.
Qed.

(** X21 on the toy batch. *)
Lemma first_forward_direct_witness :
  ∃ loss sample_size logging,
    (forward (Toy.criterion "direct" 0) (Toy.model Toy.teacher_out)
       (Toy.model Toy.student_out) Toy.batch true (World true [])).2
    = Ok (Scalar loss, sample_size, logging) ∧
    logging !! "loss" = logging !! "KD_loss".
Proof.
  destruct (first_forward_direct (Toy.criterion "direct" 0)
              (Toy.model Toy.teacher_out) (Toy.model Toy.student_out)
              Toy.batch true (World true []))
    as (_ & nll_loss & logging & Hf & _ & Hl & _).
  - reflexivity.
  - reflexivity.
  - cbn. lia.
  - repeat constructor; cbn; lia.
  - repeat constructor.
  - change (call (Toy.model Toy.student_out)
              (training (Toy.model Toy.student_out)) (net_in Toy.batch))
      with (Toy.student_out, @None extra).
    rewrite toy_student_probs. solve_entries.
  - change (rows (view2 (get_normalized_probs (Toy.model Toy.teacher_out)
                           (forwards (Toy.model Toy.teacher_out) false
                              (net_in Toy.batch)).1 false)))
      with (rows (view2 (Toy.probs_of false Toy.teacher_out))).
    rewrite toy_teacher_probs. solve_entries.
  - by eauto.
Defined.

End first_call.

(** ** Retrieval in the adaptive kNN-MT decoder *)

Section adaptive_retrieval.
Import Torch Fairseq AdaptiveKnnMt.

(** X22. In the modes ["inference"] and ["train_metak"], on a call with an
    encoder output, [forward] returns what the base decoder's [forward]
    returns: the retrieval changes the decoder, not the output. The
    retriever is queried with the features (the output of
    [extract_features], also when the output layer is applied), the mean of
    the encoder's output over the source positions, and the length of
    [prev_output_tokens]; and [get_normalized_probs] called next combines
    the kNN probabilities of that retrieval with the output it is given. *)
Theorem forward_then_get_normalized_probs self prev out fargs features_only
    r c w output log_probs s :
  knn_mode (dec_args self) = "inference"
  ∨ knn_mode (dec_args self) = "train_metak" →
  retriever self = Some r →
  combiner self = Some c →
  source_weight (dec_args self) = Some w →
  (forward self prev (Some out) fargs features_only).2
  = base_forward (base self) prev (Some out) fargs features_only ∧
  gen_len (forward self prev (Some out) fargs features_only).1
  = shape1 prev ∧
  get_normalized_probs
    (forward self prev (Some out) fargs features_only).1 output log_probs s
  = Ok (get_combined_prob c
          (get_knn_prob c
             (fast_faiss_retrieve_with_hidden r
                (extract_features (base self) prev (Some out) fargs).1
                (mean1 (transpose01 (enc_out out))) (hidden_dic self)
                (shape1 prev) (knn_mode (dec_args self)))
             (mean1 (transpose01 (enc_out out))) w)
          output.1 log_probs).
Proof.
  intros Hmode Hr Hc Hw. unfold forward, base_forward.
  cbn [base set_forward_state].
  destruct (extract_features _ _ _ _) as [x extra].
  cbn [dec_args set_forward_state retriever gen_len cache_hidden hidden_dic
       base fst snd].
  rewrite Hr.
  assert (knn_mode (dec_args self) ≠ "build_datastore") as Hnb
    by (destruct Hmode as [-> | ->]; discriminate).
  rewrite decide_False, decide_True by done.
  cbn [fst snd]. split; [done|]. split; [done|].
  unfold get_normalized_probs.
  cbn [dec_args combiner retriever results cache_hidden set_forward_state].
  rewrite decide_True by done. by rewrite Hc, Hw.
Qed.

(** X22 on a toy decoder in the mode ["inference"]. *)
Lemma forward_then_get_normalized_probs_witness :
  get_normalized_probs
    (forward Toy.inference_decoder [[2; 0]]%Z
       (Some (EncoderOut Toy.teacher_out [])) Toy.no_features_args false).1
    (Toy.student_out, None) false None
  = Ok Toy.knn_out.
Proof.
  destruct (forward_then_get_normalized_probs Toy.inference_decoder
              [[2; 0]]%Z (EncoderOut Toy.teacher_out []) Toy.no_features_args
              false
              (MkRetriever (λ _ _ _ _ _, Retrieval [] []) None)
              (MkKnnCombiner (λ _ _ _, Toy.knn_out) (λ knn_prob _ _, knn_prob))
              1%R (Toy.student_out, None) false None)
    as (_ & _ & Hprobs); [by left|reflexivity..|].
  exact Hprobs.
Defined.

(** X24. In the modes ["inference"] and ["train_metak"],
    [get_normalized_probs] reads what [forward] has stored: on a decoder
    that holds no hidden state of the encoder ([cache_hidden] is set by
    [forward] only) it raises, for every output. *)
Theorem get_normalized_probs_needs_forward self output log_probs s :
  knn_mode (dec_args self) = "inference"
  ∨ knn_mode (dec_args self) = "train_metak" →
  cache_hidden self = None →
  get_normalized_probs self output log_probs s = Raise TypeError
  ∨ get_normalized_probs self output log_probs s = Raise AttributeError.
Proof.
  intros Hmode Hc. unfold get_normalized_probs.
  rewrite decide_True, Hc by done.
  destruct (combiner self); [|by right].
  destruct (retriever self) as [r|]; [|by right].
  destruct (results r); [by right|by left].
Qed.

Lemma get_normalized_probs_needs_forward_witness :
  get_normalized_probs Toy.inference_decoder (Toy.student_out, None) false None
  = Raise TypeError
  ∨ get_normalized_probs Toy.inference_decoder (Toy.student_out, None) false
      None
    = Raise AttributeError.
Proof.
  apply get_normalized_probs_needs_forward; [by left|reflexivity].
Defined.

End adaptive_retrieval.
